(** * packageLoader: package scanning, definition collection and style inheritance

    A shallow embedding of [packageLoader.py]: the definition collector
    ([parse_package]), the category parsers ([Style.parse], [Item.parse],
    [Voice.parse], [Skybox.parse], [Goo.parse], [Music.parse],
    [StyleVar.parse]), the override mergers ([add_over]), the driver
    ([loadAll]) and the style inheritance resolver ([setup_style_tree]).

    Conventions of the embedding:
    - a Python [dict] with string keys is an association list in insertion
      order with unique keys (module [PyDict]); iteration follows the list;
    - a raised exception is the [Raise] branch of [result]; [print] appends a
      line to an explicit log;
    - the [while] loop of [setup_style_tree] is run with fuel: [None] means
      the fuel ran out before the loop left;
    - text is ASCII: [casefold] lowers A-Z, [strip] removes ASCII white space. *)

From Stdlib Require Import String Ascii List Bool Arith Lia Relations.
Import ListNotations.
Local Open Scope string_scope.
Local Open Scope list_scope.

(** ** Exceptions and results *)

Inductive exn : Type :=
| KeyError | IndexError | NameError | AttributeError | TypeError
| IOError | NoKeyError | BadZipFile.

Inductive result (A : Type) : Type :=
| Ok (a : A)
| Raise (e : exn).
Arguments Ok {A} a.
Arguments Raise {A} e.

Definition bind {A B} (r : result A) (k : A -> result B) : result B :=
  match r with
  | Ok a => k a
  | Raise e => Raise e
  end.

Declare Scope py_scope.
Delimit Scope py_scope with py.
Notation "x <- c ;; k" := (bind c (fun x => k))
  (at level 61, c at next level, right associativity) : py_scope.
Notation "' p <- c ;; k" := (bind c (fun p => k))
  (at level 61, p pattern, c at next level, right associativity) : py_scope.
Local Open Scope py_scope.

(** ** Python dictionaries with string keys *)

Module PyDict.

Definition t (V : Type) : Type := list (string * V).

Definition empty {V} : t V := [].

Fixpoint get {V} (k : string) (d : t V) : option V :=
  match d with
  | [] => None
  | (k', v) :: r => if String.eqb k k' then Some v else get k r
  end.

Definition mem {V} (k : string) (d : t V) : bool :=
  match get k d with Some _ => true | None => false end.

(** [d[k] = v]: an existing key keeps its place, a new key goes last. *)
Fixpoint set {V} (k : string) (v : V) (d : t V) : t V :=
  match d with
  | [] => [(k, v)]
  | (k', v') :: r =>
      if String.eqb k k' then (k', v) :: r else (k', v') :: set k v r
  end.

Definition keys {V} (d : t V) : list string := map fst d.
Definition values {V} (d : t V) : list V := map snd d.
Definition items {V} (d : t V) : list (string * V) := d.

End PyDict.

(** ** Property trees *)

(** Modelled from the spec: the class [Property] of [property_parser], which
    is not among the sources.  A tree is an ordered list of named nodes; a
    node holds a string or an ordered list of children, and names may
    repeat. *)
#[warnings="-register-all"]
Inductive Property : Type :=
| PLeaf (name : string) (text : string)
| PBlock (name : string) (children : list Property).

(** Modelled from the spec: what [prop.value] or the default of a lookup can
    be, for the same missing class. *)
Inductive Value : Type :=
| VNone
| VStr (s : string)
| VList (l : list Property).

(** Modelled from the spec: [prop.name] and [prop.value] of the missing
    [Property]. *)
Definition prop_name (p : Property) : string :=
  match p with PLeaf n _ => n | PBlock n _ => n end.

Definition prop_value (p : Property) : Value :=
  match p with PLeaf _ s => VStr s | PBlock _ l => VList l end.

(** Modelled from the spec: the missing [Property.has_children]. *)
Definition has_children (p : Property) : bool :=
  match p with PLeaf _ _ => false | PBlock _ _ => true end.

(** Modelled from the spec: the children a node of the missing [Property]
    iterates over; a node that holds a string has none. *)
Definition children_of (v : Value) : list Property :=
  match v with VList l => l | _ => [] end.

(** Modelled from the spec: the first child by name, of the missing
    [Property.find_key]. *)
Fixpoint find_first (key : string) (l : list Property) : option Property :=
  match l with
  | [] => None
  | p :: r => if String.eqb (prop_name p) key then Some p else find_first key r
  end.

(** Modelled from the spec: all children by name, the missing
    [Property.find_all]. *)
Definition find_all (l : list Property) (key : string) : list Property :=
  filter (fun p => String.eqb (prop_name p) key) l.

(** Modelled from the spec: the missing [Property.find_key(tree, key)], which
    raises when the key is absent. *)
Definition find_key (l : list Property) (key : string) : result Property :=
  match find_first key l with
  | Some p => Ok p
  | None => Raise NoKeyError
  end.

(** Modelled from the spec: the missing
    [Property.find_key(tree, key, default).value]. *)
Definition find_key_def (l : list Property) (key : string) (def : Value) : Value :=
  match find_first key l with
  | Some p => prop_value p
  | None => def
  end.

(** Modelled from the spec: [node[key]] of the missing [Property], the value
    of the first child named [key]; raises without one. *)
Definition getitem (node : Property) (key : string) : result Value :=
  p <- find_key (children_of (prop_value node)) key ;; Ok (prop_value p).

(** Modelled from the spec: [node[key, default]] of the missing [Property]. *)
Definition getitem_def (node : Property) (key : string) (def : Value) : Value :=
  find_key_def (children_of (prop_value node)) key def.

Definition value_is (v : Value) (s : string) : bool :=
  match v with VStr s' => String.eqb s' s | _ => false end.

(** A value used as a dictionary key or joined to a string must be a string. *)
Definition as_str (v : Value) : result string :=
  match v with
  | VStr s => Ok s
  | _ => Raise TypeError
  end.

(** ** Content objects *)

(** A [(label, text)] pair of a description. *)
Definition DescLine : Type := (string * Value)%type.

(** The per-folder data [Item.parse] builds. *)
Record FolderData : Type := mkFolder {
  f_auth : list string;
  f_tags : list string;
  f_desc : list DescLine;
  f_ent : Value;
  f_url : Value;
  f_icons : PyDict.t Value;
  f_editor : list Property;
  f_vbsp : option (list Property)
}.

(** A value of a version's [styles] mapping or of its [def_style]: the raw
    value read from the manifest, or the folder data that replaces it. *)
Inductive StyleVal : Type :=
| Raw (v : Value)
| Resolved (f : FolderData).

Record Version : Type := mkVersion {
  v_name : Value;
  is_beta : bool;
  is_dep : bool;
  styles : PyDict.t StyleVal;
  def_style : StyleVal
}.

Record Item : Type := mkItem {
  i_id : string;
  versions : list Version;
  def_data : StyleVal
}.

(** A [Style] object.  [bases] is the attribute [setup_style_tree] adds: [None]
    while it is unset, then the chain as the ids of the chained objects (every
    chained object is the one the style index holds under that id). *)
Record Style : Type := mkStyle {
  s_id : string;
  s_auth : list string;
  s_name : Value;
  s_desc : list DescLine;
  s_icon : Value;
  s_short_name : Value;
  s_editor : list Property;
  base_style : Value;
  s_suggested : Value * Value * Value * Value;
  s_config : Property;
  bases : option (list string)
}.

Definition set_bases (s : Style) (b : list string) : Style :=
  mkStyle (s_id s) (s_auth s) (s_name s) (s_desc s) (s_icon s) (s_short_name s)
          (s_editor s) (base_style s) (s_suggested s) (s_config s) (Some b).

Record Voice : Type := mkVoice {
  vo_id : string;
  vo_name : Value;
  vo_icon : Value;
  vo_short_name : Value;
  vo_desc : list DescLine;
  vo_auth : list string;
  vo_config : list Property
}.

Record Skybox : Type := mkSkybox {
  sk_id : string;
  sk_short_name : Value;
  sk_name : Value;
  sk_icon : Value;
  sk_material : Value;
  sk_config : list Property;
  sk_auth : list string;
  sk_desc : list DescLine
}.

Record Goo : Type := mkGoo {
  g_id : string;
  g_short_name : Value;
  g_name : Value;
  g_icon : Value;
  g_material : Value;
  g_cheap_material : Value;
  g_auth : list string;
  g_desc : list DescLine;
  g_config : list Property
}.

Record Music : Type := mkMusic {
  m_id : string;
  m_short_name : Value;
  m_name : Value;
  m_icon : Value;
  m_inst : Value;
  m_auth : list string;
  m_desc : list DescLine;
  m_config : list Property
}.

Record StyleVar : Type := mkStyleVar {
  sv_id : string;
  sv_name : Value;
  sv_styles : list Value;
  sv_default : bool
}.

(** An object as [loadAll] stores it: the parsed object and the two
    attributes [pak_id] and [pak_name] set on it after parsing. *)
Record Obj (A : Type) : Type := mkObj {
  body : A;
  pak_id : option string;
  pak_name : option Value
}.
Arguments mkObj {A} body pak_id pak_name.
Arguments body {A} o.
Arguments pak_id {A} o.
Arguments pak_name {A} o.

Definition with_body {A} (o : Obj A) (a : A) : Obj A :=
  mkObj a (pak_id o) (pak_name o).

(** The seven lists of [data], by category. *)
Record Data : Type := mkData {
  d_Style : list (Obj Style);
  d_Item : list (Obj Item);
  d_QuotePack : list (Obj Voice);
  d_Skybox : list (Obj Skybox);
  d_Goo : list (Obj Goo);
  d_Music : list (Obj Music);
  d_StyleVar : list (Obj StyleVar)
}.

Definition empty_data : Data := mkData [] [] [] [] [] [] [].

(** ** The style inheritance resolver *)

Definition style_id (s : Obj Style) : string := s_id (body s).

(** [for style in data['Style']: styles[style.id] = style]. *)
Definition index_styles (l : list (Obj Style)) : PyDict.t (Obj Style) :=
  fold_left (fun d s => PyDict.set (style_id s) s d) l PyDict.empty.

(** [styles.get(b_style.base_style, None)]: [None] is no key of the index, a
    list cannot be hashed. *)
Definition get_base (idx : PyDict.t (Obj Style)) (b : Obj Style)
  : result (option (Obj Style)) :=
  match base_style (body b) with
  | VNone => Ok None
  | VStr k => Ok (PyDict.get k idx)
  | VList _ => Raise TypeError
  end.

(** The [while b_style is not None] loop, [base] being the list built so far. *)
Fixpoint base_loop (fuel : nat) (idx : PyDict.t (Obj Style))
         (b_style : option (Obj Style)) (base : list string)
  : option (result (list string)) :=
  match b_style with
  | None => Some (Ok base)
  | Some b =>
      match fuel with
      | O => None
      | S fuel' =>
          match get_base idx b with
          | Ok next => base_loop fuel' idx next (base ++ [style_id b])
          | Raise e => Some (Raise e)
          end
      end
  end.

(** The loop over [styles.values()]: each style of the index gets its chain.
    The loop reads [id] and [base_style] only, which it never writes, so the
    lookups go to the index as it was. *)
Fixpoint link_bases (fuel : nat) (idx : PyDict.t (Obj Style))
         (todo : list (string * Obj Style))
  : option (result (PyDict.t (Obj Style))) :=
  match todo with
  | [] => Some (Ok [])
  | (k, s) :: r =>
      match base_loop fuel idx (Some s) [] with
      | None => None
      | Some (Raise e) => Some (Raise e)
      | Some (Ok base) =>
          match link_bases fuel idx r with
          | None => None
          | Some (Raise e) => Some (Raise e)
          | Some (Ok r') => Some (Ok ((k, with_body s (set_bases (body s) base)) :: r'))
          end
      end
  end.

(** The inner [for base_style in style.bases] with its [break]: the data of
    the first chained style whose id the mapping has. *)
Fixpoint first_present (chain : list string) (m : PyDict.t StyleVal)
  : option StyleVal :=
  match chain with
  | [] => None
  | b :: r =>
      match PyDict.get b m with
      | Some v => Some v
      | None => first_present r m
      end
  end.

(** One round of [for id, style in styles.items()]. *)
Definition fill_style (def : StyleVal) (m : PyDict.t StyleVal)
           (entry : string * Obj Style) : result (PyDict.t StyleVal) :=
  let (id, style) := entry in
  if PyDict.mem id m then Ok m
  else
    match bases (body style) with
    | None => Raise AttributeError
    | Some chain =>
        match first_present chain m with
        | Some v => Ok (PyDict.set id v m)
        | None => Ok (PyDict.set id def m)
        end
    end.

Fixpoint fill_styles (def : StyleVal) (todo : list (string * Obj Style))
         (m : PyDict.t StyleVal) : result (PyDict.t StyleVal) :=
  match todo with
  | [] => Ok m
  | e :: r => m' <- fill_style def m e ;; fill_styles def r m'
  end.

Definition fill_version (idx : PyDict.t (Obj Style)) (v : Version) : result Version :=
  m <- fill_styles (def_style v) (PyDict.items idx) (styles v) ;;
  Ok (mkVersion (v_name v) (is_beta v) (is_dep v) m (def_style v)).

Fixpoint mapM {A B} (f : A -> result B) (l : list A) : result (list B) :=
  match l with
  | [] => Ok []
  | a :: r => b <- f a ;; r' <- mapM f r ;; Ok (b :: r')
  end.

Definition fill_item (idx : PyDict.t (Obj Style)) (it : Obj Item) : result (Obj Item) :=
  vs <- mapM (fill_version idx) (versions (body it)) ;;
  Ok (with_body it (mkItem (i_id (body it)) vs (def_data (body it)))).

(** The objects of [data['Style']] after the loop: the object the index holds
    for an id (the last of that id in the list) carries its chain, an object
    shadowed by a later one of the same id was never visited. *)
Fixpoint write_back (l : list (Obj Style)) (idx : PyDict.t (Obj Style))
  : list (Obj Style) :=
  match l with
  | [] => []
  | s :: r =>
      (if existsb (fun s' => String.eqb (style_id s') (style_id s)) r then s
       else match PyDict.get (style_id s) idx with
            | Some s' => s'
            | None => s
            end) :: write_back r idx
  end.

Definition setup_style_tree (fuel : nat) (data : Data) : option (result Data) :=
  let styles := index_styles (d_Style data) in
  match link_bases fuel styles (PyDict.items styles) with
  | None => None
  | Some (Raise e) => Some (Raise e)
  | Some (Ok linked) =>
      Some (its <- mapM (fill_item linked) (d_Item data) ;;
            Ok (mkData (write_back (d_Style data) linked) its
                       (d_QuotePack data) (d_Skybox data) (d_Goo data)
                       (d_Music data) (d_StyleVar data)))
  end.

(** ** Text helpers *)

(** [c.isspace()] for an ASCII character: tab to carriage return, the four
    separators 28 to 31, and the blank.  Python counts further characters
    beyond ASCII as white space; what is proved of [strip] and [sep_values]
    is stated for ASCII text ([is_ascii]). *)
Definition is_space (c : ascii) : bool :=
  let n := nat_of_ascii c in
  (Nat.leb 9 n && Nat.leb n 13) || (Nat.leb 28 n && Nat.leb n 32).

(** Case folding of an ASCII character: A to Z are lowered.  Python folds
    letters beyond ASCII too; what is proved of [casefold] is stated for
    ASCII text ([is_ascii]). *)
Definition lower (c : ascii) : ascii :=
  let n := nat_of_ascii c in
  if Nat.leb 65 n && Nat.leb n 90 then ascii_of_nat (n + 32) else c.

Fixpoint casefold (s : string) : string :=
  match s with
  | EmptyString => EmptyString
  | String c r => String (lower c) (casefold r)
  end.

Fixpoint lstrip (s : string) : string :=
  match s with
  | EmptyString => EmptyString
  | String c r => if is_space c then lstrip r else s
  end.

Fixpoint rstrip (s : string) : string :=
  match s with
  | EmptyString => EmptyString
  | String c r =>
      match rstrip r with
      | EmptyString => if is_space c then EmptyString else String c EmptyString
      | r' => String c r'
      end
  end.

Definition strip (s : string) : string := rstrip (lstrip s).

(** [s.split(d)] for a one-character separator. *)
Fixpoint split (d : ascii) (s : string) : list string :=
  match s with
  | EmptyString => [EmptyString]
  | String c r =>
      if Ascii.eqb c d then EmptyString :: split d r
      else match split d r with
           | h :: t => String c h :: t
           | [] => [String c EmptyString]
           end
  end.

(** The double quote character, as a string. *)
Definition dquote : string := String (ascii_of_nat 34) EmptyString.

Definition nonempty (s : string) : bool :=
  match s with EmptyString => false | _ => true end.

(** [sep_values(str, delimiter)]; a list has no [split]. *)
Definition sep_values (v : Value) (delimiter : ascii) : result (list string) :=
  match v with
  | VStr s => Ok (filter nonempty (map strip (split delimiter s)))
  | _ => Raise AttributeError
  end.

Fixpoint ends_with (suffix s : string) : bool :=
  if String.eqb s suffix then true
  else match s with
       | EmptyString => false
       | String _ r => ends_with suffix r
       end.

(** ** Archives

    An opened archive: its path and, per entry name, the tree
    [Property.parse] reads from that entry. *)
Record Zip : Type := mkZip {
  z_path : string;
  z_entries : PyDict.t (list Property)
}.

Definition namelist (z : Zip) : list string := PyDict.keys (z_entries z).

Definition in_names (path : string) (z : Zip) : bool :=
  existsb (String.eqb path) (namelist z).

(** [Property.parse(zip.open(path))]: opening a missing entry raises. *)
Definition open_parse (z : Zip) (path : string) : result (list Property) :=
  match PyDict.get path (z_entries z) with
  | Some t => Ok t
  | None => Raise KeyError
  end.

(** ** Shared metadata *)

(** [desc_parse(info)], as the list it yields. *)
Definition desc_parse (info : Property) : list DescLine :=
  flat_map
    (fun prop =>
       if has_children prop
       then map (fun line => (casefold (prop_name line), prop_value line))
                (children_of (prop_value prop))
       else [("line", prop_value prop)])
    (find_all (children_of (prop_value info)) "description").

Record SelItem : Type := mkSel {
  sel_name : Value;
  sel_short_name : Value;
  sel_auth : list string;
  sel_icon : Value;
  sel_desc : list DescLine
}.

Definition get_selitem_data (info : Property) : result SelItem :=
  auth <- sep_values (getitem_def info "authors" (VStr "")) ","%char ;;
  let desc := desc_parse info in
  let short_name := getitem_def info "shortName" VNone in
  name <- getitem info "name" ;;
  let icon := getitem_def info "icon" (VStr "_blank") in
  Ok (mkSel name short_name auth icon desc).

(** [name if short_name is None else short_name]. *)
Definition short_or_name (name short_name : Value) : Value :=
  match short_name with VNone => name | _ => short_name end.

(** [a + b] on what must be strings. *)
Definition concat_val (prefix : string) (v : Value) (suffix : string) : result string :=
  s <- as_str v ;; Ok (prefix ++ s ++ suffix)%string.

(** ** Category parsers *)

Module StyleC.

Definition init (id : string) (name : Value) (author : list string)
           (desc : list DescLine) (icon : Value) (editor : list Property)
           (config : option (list Property)) (base : Value) (short_name : Value)
           (suggested : Value * Value * Value * Value) : Style :=
  mkStyle id author name desc icon (short_or_name name short_name) editor base
          suggested
          (PBlock "ItemData" (match config with None => [] | Some c => c end))
          None.

Definition parse (zip : Zip) (id : string) (info : Property) : result Style :=
  sel <- get_selitem_data info ;;
  let base := getitem_def info "base" (VStr "NONE") in
  let sugg := match find_first "suggested" (children_of (prop_value info)) with
              | Some p => p
              | None => PBlock "suggested" []
              end in
  let sugg := (getitem_def sugg "quote" (VStr ""), getitem_def sugg "music" (VStr ""),
               getitem_def sugg "skybox" (VStr ""), getitem_def sugg "goo" (VStr "")) in
  let short_name := if value_is (sel_short_name sel) "" then VNone
                    else sel_short_name sel in
  let base := if value_is base "NONE" then VNone else base in
  fold <- getitem info "folder" ;;
  folder <- concat_val "styles/" fold "" ;;
  let config := (folder ++ "/vbsp_config.cfg")%string in
  items <- open_parse zip (folder ++ "/items.txt")%string ;;
  vbsp <- (if in_names config zip
           then c <- open_parse zip config ;; Ok (Some c)
           else Ok None) ;;
  Ok (init id (sel_name sel) (sel_auth sel) (sel_desc sel) (sel_icon sel)
           items vbsp base short_name sugg).

(** [add_over] is [pass]. *)
Definition add_over (self override : Style) (zip : Zip) : result Style := Ok self.

End StyleC.

Module ItemC.

(** [Item.__init__]: reads [versions[0]]. *)
Definition init (id : string) (versions : list Version) : result Item :=
  match versions with
  | [] => Raise IndexError
  | v :: _ => Ok (mkItem id versions (def_style v))
  end.

(** The two inner loops of the first pass, over the children of every
    [styles] block of one version; [folders] collects the folder names. *)
Fixpoint scan_styles (l : list Property) (vals : Version)
         (folders : list string) : result (Version * list string) :=
  match l with
  | [] => Ok (vals, folders)
  | sty :: r =>
      let def := match def_style vals with
                 | Raw VNone => Raw (prop_value sty)
                 | d => d
                 end in
      let vals' := mkVersion (v_name vals) (is_beta vals) (is_dep vals)
                     (PyDict.set (prop_name sty) (Raw (prop_value sty)) (styles vals))
                     def in
      fold <- as_str (prop_value sty) ;;
      scan_styles r vals'
        (if existsb (String.eqb fold) folders then folders else folders ++ [fold])
  end.

Fixpoint scan_versions (l : list Property) (versions : list Version)
         (folders : list string) : result (list Version * list string) :=
  match l with
  | [] => Ok (versions, folders)
  | ver :: r =>
      let vals := mkVersion (getitem_def ver "name" (VStr ""))
                    (value_is (getitem_def ver "beta" (VStr "0")) "1")
                    (value_is (getitem_def ver "deprecated" (VStr "0")) "1")
                    PyDict.empty (Raw VNone) in
      ' (vals', folders') <-
        scan_styles
          (flat_map (fun sty_list => children_of (prop_value sty_list))
                    (find_all (children_of (prop_value ver)) "styles"))
          vals folders ;;
      scan_versions r (versions ++ [vals']) folders'
  end.

(** The dictionary comprehension over [props['icon', []]]. *)
Definition icon_dict (v : Value) : result (PyDict.t Value) :=
  match v with
  | VList l =>
      Ok (fold_left (fun d p => PyDict.set (prop_name p) (prop_value p) d) l PyDict.empty)
  | VStr EmptyString => Ok PyDict.empty
  | VStr _ => Raise AttributeError
  | VNone => Raise TypeError
  end.

(** The body of [for fold in folders]. *)
Definition load_folder (zip : Zip) (fold : string) : result FolderData :=
  let props := ("items/" ++ fold ++ "/properties.txt")%string in
  let editor := ("items/" ++ fold ++ "/editoritems.txt")%string in
  let config := ("items/" ++ fold ++ "/vbsp_config.cfg")%string in
  if in_names props zip && in_names editor zip then
    tree <- open_parse zip props ;;
    props <- find_key tree "Properties" ;;
    editor <- open_parse zip editor ;;
    auth <- sep_values (getitem_def props "authors" (VStr "")) ","%char ;;
    tags <- sep_values (getitem_def props "tags" (VStr "")) ";"%char ;;
    icons <- icon_dict (getitem_def props "icon" (VList [])) ;;
    vbsp <- (if in_names config zip
             then c <- open_parse zip config ;; Ok (Some c)
             else Ok None) ;;
    Ok (mkFolder auth tags (desc_parse props)
                 (getitem_def props "ent_count" (VStr "??"))
                 (getitem_def props "infoURL" VNone)
                 icons (find_all editor "Item") vbsp)
  else Raise IOError.

Fixpoint load_folders (zip : Zip) (names : list string)
  : result (PyDict.t FolderData) :=
  match names with
  | [] => Ok []
  | fold :: r =>
      f <- load_folder zip fold ;;
      r' <- load_folders zip r ;;
      Ok ((fold, f) :: r')
  end.

(** [key in folders] and [folders[key]] for a raw value. *)
Definition in_folders (v : StyleVal) (folders : PyDict.t FolderData) : result bool :=
  match v with
  | Raw VNone => Ok false
  | Raw (VStr s) => Ok (PyDict.mem s folders)
  | _ => Raise TypeError
  end.

Definition folder_at (v : StyleVal) (folders : PyDict.t FolderData)
  : result StyleVal :=
  match v with
  | Raw (VStr s) =>
      match PyDict.get s folders with
      | Some f => Ok (Resolved f)
      | None => Raise KeyError
      end
  | Raw VNone => Raise KeyError
  | _ => Raise TypeError
  end.

Fixpoint rewrite_styles (folders : PyDict.t FolderData)
         (l : list (string * StyleVal)) : result (PyDict.t StyleVal) :=
  match l with
  | [] => Ok []
  | (sty, fold) :: r =>
      f <- folder_at fold folders ;;
      r' <- rewrite_styles folders r ;;
      Ok ((sty, f) :: r')
  end.

(** The body of the last loop, [for ver in versions].  [vals_def] is
    [vals['def_style']]: [vals] is still bound to the dictionary of the
    last version scanned, which this loop reaches last, so while any
    version's [def_style] is rewritten that entry is still the raw one. *)
Definition rewrite_version (folders : PyDict.t FolderData) (vals_def : StyleVal)
           (ver : Version) : result Version :=
  known <- in_folders (def_style ver) folders ;;
  def <- (if known : bool then folder_at vals_def folders else Ok (def_style ver)) ;;
  sts <- rewrite_styles folders (PyDict.items (styles ver)) ;;
  Ok (mkVersion (v_name ver) (is_beta ver) (is_dep ver) sts def).

Definition parse (zip : Zip) (id : string) (info : Property) : result Item :=
  ' (versions, names) <-
    scan_versions (find_all (children_of (prop_value info)) "version") [] [] ;;
  folders <- load_folders zip names ;;
  versions' <- mapM (rewrite_version folders
                       (def_style (last versions (mkVersion VNone false false [] (Raw VNone)))))
                    versions ;;
  init id versions'.

(** [add_over] is [pass]. *)
Definition add_over (self override : Item) (zip : Zip) : result Item := Ok self.

End ItemC.

Module VoiceC.

Definition init (id : string) (name : Value) (config : list Property)
           (icon : Value) (desc : list DescLine) (auth : list string)
           (short_name : Value) : Voice :=
  mkVoice id name icon (short_or_name name short_name) desc auth config.

Definition parse (zip : Zip) (id : string) (info : Property) : result Voice :=
  sel <- get_selitem_data info ;;
  file <- getitem info "file" ;;
  path <- concat_val "voice/" file ".voice" ;;
  config <- open_parse zip path ;;
  Ok (init id (sel_name sel) config (sel_icon sel) (sel_desc sel)
           (sel_auth sel) (sel_short_name sel)).

(** [add_over] is [pass]. *)
Definition add_over (self override : Voice) (zip : Zip) : result Voice := Ok self.

End VoiceC.

Module SkyboxC.

Definition init (id : string) (name ico : Value) (config : list Property)
           (mat : Value) (auth : list string) (desc : list DescLine)
           (short_name : Value) : Skybox :=
  mkSkybox id (short_or_name name short_name) name ico mat config auth desc.

(** The lines printed, and the outcome. *)
Definition parse (zip : Zip) (id : string) (info : Property)
  : list string * result Skybox :=
  let config_dir := getitem_def info "config" (VStr "") in
  match get_selitem_data info with
  | Raise e => ([], Raise e)
  | Ok sel =>
      let mat := getitem_def info "material" (VStr "sky_black") in
      let done config :=
        Ok (init id (sel_name sel) (sel_icon sel) config mat (sel_auth sel)
                 (sel_desc sel) (sel_short_name sel)) in
      if value_is config_dir "" then ([], done [])
      else
        match sel_name sel with
        | VStr name =>
            if in_names ("skybox/" ++ name ++ ".cfg")%string zip
            then ([], config <- open_parse zip name ;; done config)
            else ([(name ++ ".cfg not in zip!")%string], done [])
        | _ => ([], Raise TypeError)
        end
  end.

(** [self.auth.extend(sky.auth)]: no [sky] is bound anywhere. *)
Definition add_over (self override : Skybox) (zip : Zip) : result Skybox :=
  Raise NameError.

End SkyboxC.

Module GooC.

Definition init (id : string) (name ico mat mat_cheap : Value)
           (auth : list string) (desc : list DescLine) (short_name : Value)
           (config : list Property) : Goo :=
  mkGoo id (short_or_name name short_name) name ico mat mat_cheap auth desc config.

Definition parse (zip : Zip) (id : string) (info : Property) : result Goo :=
  sel <- get_selitem_data info ;;
  let mat := getitem_def info "material" (VStr "nature/toxicslime_a2_bridge_intro") in
  let mat_cheap := getitem_def info "material_cheap" mat in
  config_dir <- concat_val "goo/" (getitem_def info "config" (VStr "")) "" ;;
  config <- (if in_names config_dir zip then open_parse zip config_dir else Ok []) ;;
  Ok (init id (sel_name sel) (sel_icon sel) mat mat_cheap (sel_auth sel)
           (sel_desc sel) (sel_short_name sel) config).

Definition add_over (self override : Goo) (zip : Zip) : result Goo :=
  Ok (mkGoo (g_id self) (g_short_name self) (g_name self) (g_icon self)
            (g_material self) (g_cheap_material self)
            (g_auth self ++ g_auth override) (g_desc self)
            (g_config self ++ g_config override)).

End GooC.

Module MusicC.

Definition init (id : string) (name ico inst : Value) (auth : list string)
           (desc : list DescLine) (short_name : Value)
           (config : list Property) : Music :=
  mkMusic id (short_or_name name short_name) name ico inst auth desc config.

Definition parse (zip : Zip) (id : string) (info : Property) : result Music :=
  sel <- get_selitem_data info ;;
  inst <- getitem info "instance" ;;
  config_dir <- concat_val "music/" (getitem_def info "config" (VStr "")) "" ;;
  config <- (if in_names config_dir zip then open_parse zip config_dir else Ok []) ;;
  Ok (init id (sel_name sel) (sel_icon sel) inst (sel_auth sel) (sel_desc sel)
           (sel_short_name sel) config).

Definition add_over (self override : Music) (zip : Zip) : result Music :=
  Ok (mkMusic (m_id self) (m_short_name self) (m_name self) (m_icon self)
              (m_inst self) (m_auth self ++ m_auth override) (m_desc self)
              (m_config self ++ m_config override)).

End MusicC.

Module StyleVarC.

Definition init (id : string) (name : Value) (styles : list Value)
           (default : bool) : StyleVar :=
  mkStyleVar id name styles default.

Definition parse (zip : Zip) (id : string) (info : Property) : result StyleVar :=
  name <- getitem info "name" ;;
  let styles := map prop_value (find_all (children_of (prop_value info)) "Style") in
  let default := value_is (getitem_def info "enabled" (VStr "0")) "1" in
  Ok (init id name styles default).

Definition add_over (self override : StyleVar) (zip : Zip) : result StyleVar :=
  Ok (mkStyleVar (sv_id self) (sv_name self)
                 (sv_styles self ++ sv_styles override) (sv_default self)).

End StyleVarC.

(** ** The table of categories, [obj_types] *)

Inductive comp_type : Type :=
| CStyle | CItem | CQuotePack | CSkybox | CGoo | CMusic | CStyleVar.

(** The keys of [obj_types] in the order the table lists them. *)
Definition obj_types : list comp_type :=
  [CStyle; CItem; CQuotePack; CSkybox; CGoo; CMusic; CStyleVar].

Definition type_name (c : comp_type) : string :=
  match c with
  | CStyle => "Style" | CItem => "Item" | CQuotePack => "QuotePack"
  | CSkybox => "Skybox" | CGoo => "Goo" | CMusic => "Music"
  | CStyleVar => "StyleVar"
  end.

Definition comp_eqb (a b : comp_type) : bool :=
  String.eqb (type_name a) (type_name b).

(** The class [obj_types[c]]. *)
Definition cls (c : comp_type) : Type :=
  match c with
  | CStyle => Style | CItem => Item | CQuotePack => Voice
  | CSkybox => Skybox | CGoo => Goo | CMusic => Music
  | CStyleVar => StyleVar
  end.

Definition quiet {A} (r : result A) : list string * result A := ([], r).

(** [obj_types[c].parse(zip, id, info)], with the lines it prints. *)
Definition parse_cls (c : comp_type) (zip : Zip) (id : string) (info : Property)
  : list string * result (cls c) :=
  match c return list string * result (cls c) with
  | CStyle => quiet (StyleC.parse zip id info)
  | CItem => quiet (ItemC.parse zip id info)
  | CQuotePack => quiet (VoiceC.parse zip id info)
  | CSkybox => SkyboxC.parse zip id info
  | CGoo => quiet (GooC.parse zip id info)
  | CMusic => quiet (MusicC.parse zip id info)
  | CStyleVar => quiet (StyleVarC.parse zip id info)
  end.

(** [object.add_over(override, zip)]. *)
Definition add_over_cls (c : comp_type) : cls c -> cls c -> Zip -> result (cls c) :=
  match c return cls c -> cls c -> Zip -> result (cls c) with
  | CStyle => StyleC.add_over
  | CItem => ItemC.add_over
  | CQuotePack => VoiceC.add_over
  | CSkybox => SkyboxC.add_over
  | CGoo => GooC.add_over
  | CMusic => MusicC.add_over
  | CStyleVar => StyleVarC.add_over
  end.

(** [data[c].append(object)]. *)
Definition data_append (c : comp_type) : Obj (cls c) -> Data -> Data :=
  match c return Obj (cls c) -> Data -> Data with
  | CStyle => fun o d =>
      mkData (d_Style d ++ [o]) (d_Item d) (d_QuotePack d) (d_Skybox d) (d_Goo d)
             (d_Music d) (d_StyleVar d)
  | CItem => fun o d =>
      mkData (d_Style d) (d_Item d ++ [o]) (d_QuotePack d) (d_Skybox d) (d_Goo d)
             (d_Music d) (d_StyleVar d)
  | CQuotePack => fun o d =>
      mkData (d_Style d) (d_Item d) (d_QuotePack d ++ [o]) (d_Skybox d) (d_Goo d)
             (d_Music d) (d_StyleVar d)
  | CSkybox => fun o d =>
      mkData (d_Style d) (d_Item d) (d_QuotePack d) (d_Skybox d ++ [o]) (d_Goo d)
             (d_Music d) (d_StyleVar d)
  | CGoo => fun o d =>
      mkData (d_Style d) (d_Item d) (d_QuotePack d) (d_Skybox d) (d_Goo d ++ [o])
             (d_Music d) (d_StyleVar d)
  | CMusic => fun o d =>
      mkData (d_Style d) (d_Item d) (d_QuotePack d) (d_Skybox d) (d_Goo d)
             (d_Music d ++ [o]) (d_StyleVar d)
  | CStyleVar => fun o d =>
      mkData (d_Style d) (d_Item d) (d_QuotePack d) (d_Skybox d) (d_Goo d)
             (d_Music d) (d_StyleVar d ++ [o])
  end.

(** ** The module's globals *)

(** A value of [packages]: [(id, zip, info, name, dispName)]. *)
Record Package : Type := mkPackage {
  p_id : string;
  p_zip : Zip;
  p_info : list Property;
  p_name : string;
  p_dispName : Value
}.

(** A value of [obj[c]]: [(zip, object, pak_id, dispName)]. *)
Record RawDef : Type := mkRawDef {
  r_zip : Zip;
  r_node : Property;
  r_pak_id : string;
  r_dispName : Value
}.

(** What [obj_override[c]] holds: the dictionary [loadAll] puts there, or the
    list [parse_package] assigns over it. *)
Inductive Override : Type :=
| OvDict (d : PyDict.t (list (Zip * Property)))
| OvList (l : list (Zip * Property)).

Record Globals : Type := mkGlobals {
  packages : PyDict.t Package;
  obj : comp_type -> PyDict.t RawDef;
  obj_override : comp_type -> Override;
  data : Data;
  log : list string
}.

Definition initial : Globals :=
  mkGlobals PyDict.empty (fun _ => PyDict.empty) (fun _ => OvDict PyDict.empty)
            empty_data [].

Definition upd {A} (f : comp_type -> A) (c : comp_type) (a : A) : comp_type -> A :=
  fun c' => if comp_eqb c' c then a else f c'.

Definition print (line : string) (g : Globals) : Globals :=
  mkGlobals (packages g) (obj g) (obj_override g) (data g) (log g ++ [line]).

Definition set_obj (c : comp_type) (id : string) (r : RawDef) (g : Globals) : Globals :=
  mkGlobals (packages g) (upd (obj g) c (PyDict.set id r (obj g c)))
            (obj_override g) (data g) (log g).

Definition set_override (c : comp_type) (o : Override) (g : Globals) : Globals :=
  mkGlobals (packages g) (obj g) (upd (obj_override g) c o) (data g) (log g).

Definition set_package (id : string) (p : Package) (g : Globals) : Globals :=
  mkGlobals (PyDict.set id p (packages g)) (obj g) (obj_override g) (data g) (log g).

Definition set_data (d : Data) (g : Globals) : Globals :=
  mkGlobals (packages g) (obj g) (obj_override g) d (log g).

(** [for type in obj_types: obj[type] = {}; obj_override[type] = {};
    data[type] = []]. *)
Definition reset (g : Globals) : Globals :=
  mkGlobals (packages g) (fun _ => PyDict.empty) (fun _ => OvDict PyDict.empty)
            empty_data (log g).

(** ** The definition collector, [parse_package] *)

(** The nodes a [for] loop over a value visits before any attribute of one is
    read: the characters of a string have no [.value] or [.name]. *)
Definition iter_nodes (v : Value) : result (list Property) :=
  match v with
  | VList l => Ok l
  | VStr EmptyString => Ok []
  | VStr _ => Raise AttributeError
  | VNone => Raise TypeError
  end.

(** The prerequisite loop: [true] when every prerequisite is registered,
    [false] after the line for the first one that is not ([utils.con_log]
    is taken to write a line like [print]). *)
Fixpoint check_prereqs (pres : list Property) (pak_id : string) (g : Globals)
  : Globals * result bool :=
  match pres with
  | [] => (g, Ok true)
  | pre :: r =>
      match as_str (prop_value pre) with
      | Raise e => (g, Raise e)
      | Ok name =>
          if PyDict.mem name (packages g) then check_prereqs r pak_id g
          else (print ("Package " ++ dquote ++ name ++ dquote ++ " required for "
                         ++ dquote ++ pak_id ++ dquote ++ " - ignoring package!")%string
                      g, Ok false)
      end
  end.

(** [id in obj_override[c]]: a key of the dictionary; a string is never an
    element of a list of pairs. *)
Definition override_mem (id : string) (o : Override) : bool :=
  match o with
  | OvDict d => PyDict.mem id d
  | OvList _ => false
  end.

(** [obj_override[c].append(x)]: a dictionary has no [append]. *)
Definition override_append (x : Zip * Property) (o : Override) : result Override :=
  match o with
  | OvDict _ => Raise AttributeError
  | OvList l => Ok (OvList (l ++ [x]))
  end.

(** The body of the inner loop for one definition node of category [c]. *)
Definition collect_one (zip : Zip) (pak_id : string) (dispName : Value)
           (c : comp_type) (object : Property) (g : Globals)
  : Globals * result unit :=
  match (v <- getitem object "id" ;; as_str v) with
  | Raise e => (g, Raise e)
  | Ok id =>
      let is_sub := value_is (getitem_def object "overrideOrig" (VStr "0")) "1" in
      if PyDict.mem id (obj g c) then
        if is_sub then
          if override_mem id (obj_override g c) then
            match override_append (zip, object) (obj_override g c) with
            | Ok o => (set_override c o g, Ok tt)
            | Raise e => (g, Raise e)
            end
          else (set_override c (OvList [(zip, object)]) g, Ok tt)
        else (print ("ERROR! " ++ dquote ++ id ++ dquote ++ " defined twice!")%string g,
              Ok tt)
      else (set_obj c id (mkRawDef zip object pak_id dispName) g, Ok tt)
  end.

(** The definitions a package declares, in the order the two nested loops
    visit them. *)
Definition definitions (info : list Property) : list (comp_type * Property) :=
  flat_map (fun c => map (pair c) (find_all info (type_name c))) obj_types.

Fixpoint collect (zip : Zip) (pak_id : string) (dispName : Value)
         (defs : list (comp_type * Property)) (objects : nat) (g : Globals)
  : Globals * result nat :=
  match defs with
  | [] => (g, Ok objects)
  | (c, object) :: r =>
      match collect_one zip pak_id dispName c object g with
      | (g', Ok _) => collect zip pak_id dispName r (S objects) g'
      | (g', Raise e) => (g', Raise e)
      end
  end.

(** [parse_package]; its [return False] is the count [0]. *)
Definition parse_package (zip : Zip) (info : list Property) (filename : string)
           (pak_id : string) (dispName : Value) (g : Globals)
  : Globals * result nat :=
  match iter_nodes (find_key_def info "Prerequisites" (VList [])) with
  | Raise e => (g, Raise e)
  | Ok pres =>
      match check_prereqs pres pak_id g with
      | (g', Raise e) => (g', Raise e)
      | (g', Ok false) => (g', Ok 0)
      | (g', Ok true) => collect zip pak_id dispName (definitions info) 0 g'
      end
  end.

(** ** The driver, [loadAll] *)

(** An entry of the packages directory: its name, the joined path, whether
    it is a directory, and the archive [ZipFile] opens there, if it opens. *)
Record DirEntry : Type := mkEntry {
  de_name : string;
  de_path : string;
  de_is_dir : bool;
  de_zip : option Zip
}.

(** The first loop: register the package of every archive. *)
Fixpoint read_packages (contents : list DirEntry) (g : Globals)
  : Globals * result unit :=
  match contents with
  | [] => (g, Ok tt)
  | e :: r =>
      let g := print ("Reading package file '" ++ de_name e ++ "'")%string g in
      if ends_with ".zip" (de_path e) && negb (de_is_dir e) then
        match de_zip e with
        | None => (g, Raise BadZipFile)
        | Some zip =>
            if in_names "info.txt" zip then
              match (info <- open_parse zip "info.txt" ;;
                     p <- find_key info "ID" ;;
                     id <- as_str (prop_value p) ;;
                     Ok (mkPackage id zip info (de_path e)
                                   (find_key_def info "Name" (VStr id)))) with
              | Raise x => (g, Raise x)
              | Ok p => read_packages r (set_package (p_id p) p g)
              end
            else read_packages r
                   (print ("ERROR: Bad package'" ++ de_path e ++ "'!")%string g)
        end
      else read_packages r g
  end.

(** The second loop: collect the definitions of every registered package. *)
Fixpoint scan_packages (paks : list Package) (objects : nat) (g : Globals)
  : Globals * result nat :=
  match paks with
  | [] => (g, Ok objects)
  | p :: r =>
      let g := print ("Scanning package '" ++ p_id p ++ "'")%string g in
      match parse_package (p_zip p) (p_info p) (p_name p) (p_id p) (p_dispName p) g with
      | (g', Raise e) => (g', Raise e)
      | (g', Ok new_objs) => scan_packages r (objects + new_objs) (print "Done!" g')
      end
  end.

(** [for over, zip in obj_override[type][id]]: the pairs were stored as
    [(zip, object)], so [over] is the archive and [over[0]] cannot be taken. *)
Definition apply_overrides (c : comp_type) (id : string) (object : cls c)
           (overs : list (Zip * Property)) : result (cls c) :=
  match overs with
  | [] => Ok object
  | _ :: _ => Raise TypeError
  end.

(** The body of the parse loop for one original of category [c]. *)
Definition load_one (c : comp_type) (id : string) (obj_data : RawDef) (g : Globals)
  : Globals * result unit :=
  let g := print ("Loading " ++ type_name c ++ " " ++ dquote ++ id ++ dquote ++ "!")%string
             g in
  match obj_override g c with
  | OvList _ => (g, Raise AttributeError)
  | OvDict d =>
      let (lines, r) := parse_cls c (r_zip obj_data) id (r_node obj_data) in
      let g := mkGlobals (packages g) (obj g) (obj_override g) (data g)
                         (log g ++ lines) in
      match r with
      | Raise e => (g, Raise e)
      | Ok object =>
          match (match PyDict.get id d with
                 | Some overs => apply_overrides c id object overs
                 | None => Ok object
                 end) with
          | Raise e => (g, Raise e)
          | Ok object =>
              (set_data (data_append c
                           (mkObj object (Some (r_pak_id obj_data))
                                  (Some (r_dispName obj_data)))
                           (data g)) g, Ok tt)
          end
      end
  end.

Fixpoint load_objs (c : comp_type) (objs : list (string * RawDef)) (g : Globals)
  : Globals * result unit :=
  match objs with
  | [] => (g, Ok tt)
  | (id, obj_data) :: r =>
      match load_one c id obj_data g with
      | (g', Ok _) => load_objs c r g'
      | (g', Raise e) => (g', Raise e)
      end
  end.

Fixpoint load_types (types : list comp_type) (g : Globals) : Globals * result unit :=
  match types with
  | [] => (g, Ok tt)
  | c :: r =>
      match load_objs c (PyDict.items (obj g c)) g with
      | (g', Ok _) => load_types r g'
      | (g', Raise e) => (g', Raise e)
      end
  end.

(** [loadAll(dir, load_res)] on the listing of [dir].  Closing the archives,
    the progress counts and the extraction of resources that [load_res] asks
    for act on the file system and the loading screen only and are left out,
    and [load_res] with them; the result is the
    globals afterwards and what the call returns ([None]: out of fuel in
    [setup_style_tree]).  When [setup_style_tree] raises, the globals are
    shown as they were before it ran. *)
Definition loadAll (fuel : nat) (contents : list DirEntry) (g : Globals)
  : Globals * option (result Data) :=
  match read_packages contents g with
  | (g, Raise e) => (g, Some (Raise e))
  | (g, Ok _) =>
      match scan_packages (PyDict.values (packages g)) 0 (reset g) with
      | (g, Raise e) => (g, Some (Raise e))
      | (g, Ok _) =>
          match load_types obj_types g with
          | (g, Raise e) => (g, Some (Raise e))
          | (g, Ok _) =>
              match setup_style_tree fuel (data g) with
              | None => (g, None)
              | Some (Raise e) => (g, Some (Raise e))
              | Some (Ok d) => (set_data d g, Some (Ok d))
              end
          end
      end
  end.

(** ** Notions the statements use *)

(** [b] is the resolvable base of [a]: the style indexed under [a] names [b]
    as its base, and [b] is an id of the index. *)
Definition base_step (idx : PyDict.t (Obj Style)) (a b : string) : Prop :=
  exists s, PyDict.get a idx = Some s /\ base_style (body s) = VStr b
            /\ PyDict.mem b idx = true.

(** No style reaches itself by following bases. *)
Definition acyclic (idx : PyDict.t (Obj Style)) : Prop :=
  forall k, ~ clos_trans string (base_step idx) k k.

(** The ids visited so far, latest first: each is the base of the next. *)
Inductive rpath (idx : PyDict.t (Obj Style)) : list string -> Prop :=
| rp_one k : PyDict.mem k idx = true -> rpath idx [k]
| rp_cons b a l : base_step idx a b -> rpath idx (a :: l) -> rpath idx (b :: a :: l).

(** Every key of the index is the id of the object stored under it. *)
Definition keyed_by_id (idx : PyDict.t (Obj Style)) : Prop :=
  forall k s, PyDict.get k idx = Some s -> style_id s = k.

(** A chain the index stores, or the empty one. *)
Definition stored_chain (idx : PyDict.t (Obj Style)) (c : list string) : Prop :=
  c = [] \/ exists k s, PyDict.get k idx = Some s /\ bases (body s) = Some c.

(** Every chain stored in the index starts with its own id, and goes on with
    nothing or with the chain stored for another id. *)
Definition chains_closed (idx : PyDict.t (Obj Style)) : Prop :=
  forall k s, PyDict.get k idx = Some s ->
    exists c, bases (body s) = Some (k :: c) /\ stored_chain idx c.

(** What inheritance gives a style with chain [chain] in a version whose
    mapping was [m0] and whose default is [def]. *)
Definition inherited (m0 : PyDict.t StyleVal) (def : StyleVal) (chain : list string)
  : StyleVal :=
  match first_present chain m0 with
  | Some v => v
  | None => def
  end.

(** The mapping [m] of a version while its missing styles are filled in: it
    extends the mapping [m0] the version came with, and whatever it adds is
    the inherited data of an indexed style. *)
Definition fill_inv (idx : PyDict.t (Obj Style)) (m0 : PyDict.t StyleVal)
           (def : StyleVal) (m : PyDict.t StyleVal) : Prop :=
  (forall x v, PyDict.get x m0 = Some v -> PyDict.get x m = Some v) /\
  (forall x v, PyDict.get x m = Some v ->
     PyDict.get x m0 = Some v \/
     (PyDict.get x m0 = None /\
      exists s c, PyDict.get x idx = Some s /\ bases (body s) = Some c
                  /\ v = inherited m0 def c)).

(** [style.id == k], the test that selects the styles of id [k]. *)
Definition has_id (k : string) (s : Obj Style) : bool := String.eqb (style_id s) k.

(** The call never returns, whatever the fuel. *)
Definition diverges (data : Data) : Prop :=
  forall fuel, setup_style_tree fuel data = None.

(** ** Further notions *)

(** [d in s], for a character [d]. *)
Fixpoint has_char (d : ascii) (s : string) : bool :=
  match s with
  | EmptyString => false
  | String c r => Ascii.eqb c d || has_char d r
  end.

(** The text has ASCII characters only. *)
Fixpoint is_ascii (s : string) : bool :=
  match s with
  | EmptyString => true
  | String c r => Nat.ltb (nat_of_ascii c) 128 && is_ascii r
  end.

(** The text has none of the capitals A to Z. *)
Fixpoint no_capital (s : string) : bool :=
  match s with
  | EmptyString => true
  | String c r =>
      negb (Nat.leb 65 (nat_of_ascii c) && Nat.leb (nat_of_ascii c) 90)
      && no_capital r
  end.

(** No style of the list has a list for its [base_style]. *)
Definition hashable_bases (l : list (Obj Style)) : Prop :=
  forall s x, In s l -> base_style (body s) <> VList x.

(** [data[c]]. *)
Definition data_get (c : comp_type) : Data -> list (Obj (cls c)) :=
  match c return Data -> list (Obj (cls c)) with
  | CStyle => d_Style | CItem => d_Item | CQuotePack => d_QuotePack
  | CSkybox => d_Skybox | CGoo => d_Goo | CMusic => d_Music
  | CStyleVar => d_StyleVar
  end.

(** The two shapes [obj_override[c]] takes between the reset of [loadAll] and
    the end of the collection: the empty dictionary, or a list of one pair
    beside at least one original of the category. *)
Definition store_shape (g : Globals) (c : comp_type) : Prop :=
  obj_override g c = OvDict PyDict.empty
  \/ ((exists x, obj_override g c = OvList [x]) /\ obj g c <> []).

(** The line [parse_package] writes for a prerequisite that is not registered. *)
Definition prereq_line (name pak_id : string) : string :=
  ("Package " ++ dquote ++ name ++ dquote ++ " required for "
     ++ dquote ++ pak_id ++ dquote ++ " - ignoring package!")%string.

(** ** Sample inputs *)

Module Sample.

Definition style (id : string) (base : Value) : Obj Style :=
  mkObj (StyleC.init id (VStr id) [] [] (VStr "_blank") [] None base VNone
           (VStr EmptyString, VStr EmptyString, VStr EmptyString, VStr EmptyString))
        (Some "base") (Some (VStr "Base")).

Definition folder (n : string) : FolderData :=
  mkFolder [n] [] [] (VStr "??") VNone [] [] None.

Definition widget_version : Version :=
  mkVersion (VStr EmptyString) false false [("A", Resolved (folder "f1"))]
            (Resolved (folder "f1")).

Definition widget : Obj Item :=
  mkObj (mkItem "widget" [widget_version] (Resolved (folder "f1")))
        (Some "base") (Some (VStr "Base")).

(** Style [A] without a base, [B] based on [A], [C] based on an unknown id. *)
Definition tree : Data :=
  mkData [style "A" VNone; style "B" (VStr "A"); style "C" (VStr "missing-id")]
         [widget] [] [] [] [] [].

(** [A] based on [B] and [B] based on [A]. *)
Definition cycle : Data :=
  mkData [style "A" (VStr "B"); style "B" (VStr "A")] [widget] [] [] [] [] [].

(** An archive with the manifest [info] and the given further entries. *)
Definition archive (path : string) (info : list Property)
           (entries : list (string * list Property)) : Zip :=
  mkZip path (("info.txt", info) :: entries).

Definition entry (z : Zip) : DirEntry :=
  mkEntry (z_path z) (z_path z) false (Some z).

(** The two resources of an item folder. *)
Definition folder_files (f : string) : list (string * list Property) :=
  [(("items/" ++ f ++ "/properties.txt")%string,
    [PBlock "Properties" [PLeaf "authors" f]]);
   (("items/" ++ f ++ "/editoritems.txt")%string, [PBlock "Item" []])].

(** What [Item.parse] makes of such a folder. *)
Definition loaded (f : string) : FolderData :=
  mkFolder [f] [] [] (VStr "??") VNone [] [PBlock "Item" []] None.

(** An item with two versions, each with its own folder. *)
Definition two_versions : Property :=
  PBlock "Item"
    [PLeaf "id" "widget";
     PBlock "version" [PLeaf "name" "old"; PBlock "styles" [PLeaf "A" "f1"]];
     PBlock "version" [PLeaf "name" "new"; PBlock "styles" [PLeaf "A" "f2"]]].

Definition items_zip : Zip :=
  mkZip "items.zip" (folder_files "f1" ++ folder_files "f2").

(** An item without any [version] block. *)
Definition no_version : Property := PBlock "Item" [PLeaf "id" "widget"].

(** A style, and two overrides of it. *)
Definition style_A : Property :=
  PBlock "Style" [PLeaf "id" "A"; PLeaf "name" "A"; PLeaf "folder" "a"].
Definition over_1 : Property :=
  PBlock "Style" [PLeaf "id" "A"; PLeaf "overrideOrig" "1"; PLeaf "name" "first"].
Definition over_2 : Property :=
  PBlock "Style" [PLeaf "id" "A"; PLeaf "overrideOrig" "1"; PLeaf "name" "second"].

Definition over_info : list Property :=
  [PLeaf "ID" "base"; style_A; over_1; over_2].
Definition over_zip : Zip :=
  archive "base.zip" over_info [("styles/a/items.txt", [])].

(** A second, plain definition of style [A]. *)
Definition style_A_again : Property :=
  PBlock "Style" [PLeaf "id" "A"; PLeaf "name" "again"; PLeaf "folder" "b"].

(** The globals once [style_A] of [over_zip] has been collected. *)
Definition collected_A : Globals :=
  set_obj CStyle "A" (mkRawDef over_zip style_A "base" (VStr "base")) (reset initial).

(** A package whose first definition has no [id], before a sound one; and a
    second, sound package. *)
Definition bad_info : list Property :=
  [PLeaf "ID" "bad";
   PBlock "Style" [PLeaf "name" "nameless"];
   PBlock "Item" [PLeaf "id" "widget"]].
Definition bad_zip : Zip := archive "bad.zip" bad_info [].
Definition good_zip : Zip :=
  archive "good.zip" [PLeaf "ID" "good"; style_A] [("styles/a/items.txt", [])].
Definition bad_dir : list DirEntry := [entry bad_zip; entry good_zip].

(** Definitions that name a resource the archive lacks. *)
Definition lone_voice : Property :=
  PBlock "QuotePack" [PLeaf "id" "V"; PLeaf "name" "Voice"; PLeaf "file" "lines"].
Definition lone_sky : Property :=
  PBlock "Skybox" [PLeaf "id" "S"; PLeaf "name" "sky"; PLeaf "config" "sky.cfg"].
Definition lone_goo : Property :=
  PBlock "Goo" [PLeaf "id" "G"; PLeaf "name" "goo"; PLeaf "config" "goo.cfg"].
Definition lone_music : Property :=
  PBlock "Music" [PLeaf "id" "M"; PLeaf "name" "tune"; PLeaf "instance" "inst";
                  PLeaf "config" "tune.cfg"].
Definition bare_zip : Zip := mkZip "bare.zip" [].

Definition a_skybox : Skybox :=
  mkSkybox "S" (VStr "sky") (VStr "sky") (VStr "_blank") (VStr "sky_black") []
           ["me"] [].

(** A package that requires the package [base]. *)
Definition ext_info : list Property :=
  [PLeaf "ID" "ext"; PBlock "Prerequisites" [PLeaf "Package" "base"];
   PBlock "Style" [PLeaf "id" "B"; PLeaf "name" "B"; PLeaf "base" "A";
                   PLeaf "folder" "b"]].
Definition ext_zip : Zip := archive "ext.zip" ext_info [("styles/b/items.txt", [])].

(** A second archive that claims the package id [base]. *)
Definition twin_info : list Property := [PLeaf "ID" "base"; PLeaf "Name" "Twin"].
Definition twin_zip : Zip := archive "twin.zip" twin_info [].

(** A definition without [name]. *)
Definition nameless : Property := PBlock "Goo" [PLeaf "id" "G"].

(** A skybox whose configuration file the archive holds. *)
Definition sky_zip : Zip := mkZip "sky.zip" [("skybox/sky.cfg", [PLeaf "fog" "1"])].

Definition a_goo (auth : list string) (config : list Property) : Goo :=
  mkGoo "G" (VStr "goo") (VStr "goo") (VStr "_blank") (VStr "mat") (VStr "mat")
        auth [] config.

(** Two style variables as the collector stores them. *)
Definition var_defs : list (string * RawDef) :=
  [("V1", mkRawDef bare_zip (PBlock "StyleVar" [PLeaf "id" "V1"; PLeaf "name" "One"])
                   "base" (VStr "Base"));
   ("V2", mkRawDef bare_zip (PBlock "StyleVar" [PLeaf "id" "V2"; PLeaf "name" "Two"])
                   "ext" (VStr "Extension"))].

(** A style whose folder holds [items.txt] only. *)
Definition style_zip : Zip := mkZip "style.zip" [("styles/a/items.txt", [PLeaf "Item" "x"])].

(** An archive whose manifest has no [ID]. *)
Definition anon_zip : Zip := archive "anon.zip" [PLeaf "Name" "Anonymous"] [].

(** A style whose description has two named lines. *)
Definition described : Property :=
  PBlock "Style"
    [PLeaf "id" "A"; PLeaf "name" "A";
     PBlock "description" [PLeaf "Line" "first"; PLeaf "BULLET" "second"]].

End Sample.

(** * Properties *)

(** ** Dictionaries *)

Module PyDictFacts.
Import PyDict.

Lemma get_set_same {V} (k : string) (v : V) (d : t V) :
  get k (set k v d) = Some v.
Proof.
  induction d as [|[k' v'] d IH]; simpl.
  - now rewrite String.eqb_refl.
  - destruct (String.eqb k k') eqn:E; simpl; rewrite E; auto.
Qed.

Lemma get_set_other {V} (k k' : string) (v : V) (d : t V) :
  k' <> k -> get k' (set k v d) = get k' d.
Proof.
  intros Hne. induction d as [|[k0 v0] d IH]; simpl.
  - apply String.eqb_neq in Hne. now rewrite Hne.
  - destruct (String.eqb k k0) eqn:E; simpl.
    + apply String.eqb_eq in E. subst k0.
      apply String.eqb_neq in Hne. now rewrite Hne.
    + now rewrite IH.
Qed.

Lemma get_set {V} (k k' : string) (v : V) (d : t V) :
  get k' (set k v d) = if String.eqb k' k then Some v else get k' d.
Proof.
  destruct (String.eqb k' k) eqn:E.
  - apply String.eqb_eq in E. subst. apply get_set_same.
  - apply String.eqb_neq in E. now apply get_set_other.
Qed.

Lemma mem_set {V} (k k' : string) (v : V) (d : t V) :
  mem k' (set k v d) = String.eqb k' k || mem k' d.
Proof.
  unfold mem. rewrite get_set. now destruct (String.eqb k' k).
Qed.

Lemma mem_true {V} (k : string) (d : t V) :
  mem k d = true <-> exists v, get k d = Some v.
Proof.
  unfold mem. destruct (get k d) as [v|]; split; intros H; eauto; try discriminate.
  destruct H as [v H]. discriminate.
Qed.

Lemma mem_false {V} (k : string) (d : t V) :
  mem k d = false <-> get k d = None.
Proof.
  unfold mem. destruct (get k d); split; intros H; congruence.
Qed.

Lemma mem_keys {V} (k : string) (d : t V) :
  mem k d = true <-> In k (keys d).
Proof.
  unfold mem, keys. induction d as [|[k' v'] d IH]; simpl.
  - split; [discriminate | tauto].
  - destruct (String.eqb k k') eqn:E.
    + apply String.eqb_eq in E. subst. tauto.
    + apply String.eqb_neq in E. rewrite IH. split; [tauto|].
      intros [H|H]; [congruence | exact H].
Qed.

Lemma get_in {V} (k : string) (v : V) (d : t V) :
  get k d = Some v -> In (k, v) d.
Proof.
  induction d as [|[k' v'] d IH]; simpl; [discriminate|].
  destruct (String.eqb k k') eqn:E.
  - apply String.eqb_eq in E. subst. intros [= ->]. now left.
  - intros H. right. auto.
Qed.

Lemma in_get {V} (k : string) (v : V) (d : t V) :
  NoDup (keys d) -> In (k, v) d -> get k d = Some v.
Proof.
  unfold keys. induction d as [|[k' v'] d IH]; simpl; [tauto|].
  intros Hnd [H|H].
  - injection H as -> ->. now rewrite String.eqb_refl.
  - inversion Hnd as [|? ? Hni Hnd']; subst.
    destruct (String.eqb k k') eqn:E.
    + apply String.eqb_eq in E. subst k'. exfalso. apply Hni.
      change k with (fst (k, v)). now apply in_map.
    + auto.
Qed.

Lemma keys_set {V} (k : string) (v : V) (d : t V) :
  keys (set k v d) = if mem k d then keys d else keys d ++ [k].
Proof.
  unfold keys, mem. induction d as [|[k' v'] d IH]; simpl; [reflexivity|].
  destruct (String.eqb k k') eqn:E; simpl; [reflexivity|].
  rewrite IH. now destruct (get k d).
Qed.

Lemma nodup_keys_set {V} (k : string) (v : V) (d : t V) :
  NoDup (keys d) -> NoDup (keys (set k v d)).
Proof.
  intros H. rewrite keys_set. destruct (mem k d) eqn:E; [exact H|].
  apply NoDup_app; [exact H | repeat constructor; simpl; tauto |].
  intros x Hx [<-|[]]. apply mem_keys in Hx. congruence.
Qed.

End PyDictFacts.

(** ** The style index *)

Import PyDictFacts.

Lemma index_styles_snoc (l : list (Obj Style)) (s : Obj Style) :
  index_styles (l ++ [s]) = PyDict.set (style_id s) s (index_styles l).
Proof. unfold index_styles. now rewrite fold_left_app. Qed.

Lemma index_styles_keyed (l : list (Obj Style)) : keyed_by_id (index_styles l).
Proof.
  induction l as [|s l IH] using rev_ind; intros k x.
  - discriminate.
  - rewrite index_styles_snoc, get_set.
    destruct (String.eqb k (style_id s)) eqn:E.
    + apply String.eqb_eq in E. now intros [= <-].
    + apply IH.
Qed.

Lemma index_styles_mem (l : list (Obj Style)) (s : Obj Style) :
  In s l -> PyDict.mem (style_id s) (index_styles l) = true.
Proof.
  induction l as [|x l IH] using rev_ind; [intros []|].
  intros H. rewrite index_styles_snoc, mem_set.
  apply in_app_or in H. destruct H as [H|[->|[]]].
  - rewrite (IH H). apply orb_true_r.
  - now rewrite String.eqb_refl.
Qed.

Lemma index_styles_nodup (l : list (Obj Style)) :
  NoDup (PyDict.keys (index_styles l)).
Proof.
  induction l as [|x l IH] using rev_ind.
  - constructor.
  - rewrite index_styles_snoc. now apply nodup_keys_set.
Qed.

Lemma index_styles_length (l : list (Obj Style)) :
  length (index_styles l) <= length l.
Proof.
  induction l as [|x l IH] using rev_ind; [simpl; lia|].
  rewrite index_styles_snoc, length_app. simpl.
  assert (H : length (PyDict.keys (PyDict.set (style_id x) x (index_styles l)))
              <= S (length (PyDict.keys (index_styles l)))).
  { rewrite keys_set. destruct (PyDict.mem _ _); [lia|].
    rewrite length_app. simpl. lia. }
  unfold PyDict.keys in H. rewrite !length_map in H. lia.
Qed.

(** ** The chains [link_bases] stores *)

Lemma link_bases_spec (fuel : nat) (idx : PyDict.t (Obj Style))
      (todo linked : PyDict.t (Obj Style)) :
  link_bases fuel idx todo = Some (Ok linked) ->
  Forall2 (fun e e' =>
             fst e' = fst e /\
             exists c, base_loop fuel idx (Some (snd e)) [] = Some (Ok c)
                       /\ snd e' = with_body (snd e) (set_bases (body (snd e)) c))
          todo linked.
Proof.
  revert linked. induction todo as [|[k s] r IH]; simpl; intros linked H.
  - injection H as <-. constructor.
  - destruct (base_loop fuel idx (Some s) []) as [[c|e]|] eqn:Hc; try discriminate.
    destruct (link_bases fuel idx r) as [[r'|e]|]; try discriminate.
    injection H as <-. constructor; [|now apply IH].
    simpl. split; [reflexivity|]. now exists c.
Qed.

Lemma link_bases_keys (fuel : nat) (idx todo linked : PyDict.t (Obj Style)) :
  link_bases fuel idx todo = Some (Ok linked) ->
  PyDict.keys linked = PyDict.keys todo.
Proof.
  intros H. apply link_bases_spec in H. unfold PyDict.keys.
  induction H as [|e e' l l' [He _] _ IH]; simpl; congruence.
Qed.

Lemma link_bases_get (fuel : nat) (idx todo linked : PyDict.t (Obj Style))
      (k : string) :
  link_bases fuel idx todo = Some (Ok linked) ->
  match PyDict.get k todo with
  | Some s => exists c, base_loop fuel idx (Some s) [] = Some (Ok c)
                        /\ PyDict.get k linked
                           = Some (with_body s (set_bases (body s) c))
  | None => PyDict.get k linked = None
  end.
Proof.
  intros H. apply link_bases_spec in H.
  induction H as [|[k0 s0] [k1 s1] l l' [He [c [Hc Hs]]] _ IH]; simpl; [reflexivity|].
  simpl in He, Hc, Hs. subst k1 s1.
  destruct (String.eqb k k0); [now exists c | exact IH].
Qed.

Lemma link_bases_has_bases (fuel : nat) (idx todo linked : PyDict.t (Obj Style)) :
  link_bases fuel idx todo = Some (Ok linked) ->
  Forall (fun e => bases (body (snd e)) <> None) linked.
Proof.
  intros H. apply link_bases_spec in H.
  induction H as [|e e' l l' [_ [c [_ Hs]]] _ IH]; constructor; [|exact IH].
  rewrite Hs. discriminate.
Qed.

(** ** Filling a version *)

Lemma fill_style_mem (def : StyleVal) (m m' : PyDict.t StyleVal)
      (e : string * Obj Style) :
  fill_style def m e = Ok m' ->
  PyDict.mem (fst e) m' = true /\
  forall x, PyDict.mem x m = true -> PyDict.mem x m' = true.
Proof.
  destruct e as [k s]. unfold fill_style. simpl.
  destruct (PyDict.mem k m) eqn:E.
  - intros [= <-]. auto.
  - destruct (bases (body s)) as [c|]; [|discriminate].
    destruct (first_present c m); intros [= <-]; split;
      try (rewrite mem_set, String.eqb_refl; reflexivity);
      intros x Hx; rewrite mem_set, Hx; apply orb_true_r.
Qed.

Lemma fill_styles_mem (def : StyleVal) (todo : list (string * Obj Style))
      (m m' : PyDict.t StyleVal) :
  fill_styles def todo m = Ok m' ->
  (forall e, In e todo -> PyDict.mem (fst e) m' = true) /\
  (forall x, PyDict.mem x m = true -> PyDict.mem x m' = true).
Proof.
  revert m. induction todo as [|e r IH]; simpl; intros m H.
  - injection H as <-. split; [intros ? []|auto].
  - destruct (fill_style def m e) as [m1|] eqn:E; [|discriminate]. simpl in H.
    apply fill_style_mem in E. destruct E as [E1 E2].
    destruct (IH _ H) as [I1 I2]. split.
    + intros x [<-|Hx]; auto.
    + auto.
Qed.

Lemma mapM_in {A B} (f : A -> result B) (l : list A) (l' : list B) (b : B) :
  mapM f l = Ok l' -> In b l' -> exists a, In a l /\ f a = Ok b.
Proof.
  revert l'. induction l as [|a r IH]; simpl; intros l' H Hb.
  - injection H as <-. destruct Hb.
  - destruct (f a) as [b0|] eqn:E; [|discriminate]. simpl in H.
    destruct (mapM f r) as [r'|]; [|discriminate]. injection H as <-.
    destruct Hb as [<-|Hb].
    + exists a. auto.
    + destruct (IH _ eq_refl Hb) as [a' [Ha' Hf]]. exists a'. auto.
Qed.

Lemma mapM_nth {A B} (f : A -> result B) (l : list A) (l' : list B)
      (i : nat) (a : A) :
  mapM f l = Ok l' -> nth_error l i = Some a ->
  exists b, nth_error l' i = Some b /\ f a = Ok b.
Proof.
  revert l' i. induction l as [|a0 r IH]; simpl; intros l' i H Hi.
  - destruct i; discriminate.
  - destruct (f a0) as [b0|] eqn:E; [|discriminate]. simpl in H.
    destruct (mapM f r) as [r'|]; [|discriminate]. injection H as <-.
    destruct i as [|i]; simpl in *.
    + injection Hi as <-. eauto.
    + eauto.
Qed.

(** What a successful run of [setup_style_tree] consists of. *)
Lemma setup_style_tree_ok (fuel : nat) (d d' : Data) :
  setup_style_tree fuel d = Some (Ok d') ->
  exists linked,
    link_bases fuel (index_styles (d_Style d)) (index_styles (d_Style d))
    = Some (Ok linked)
    /\ mapM (fill_item linked) (d_Item d) = Ok (d_Item d')
    /\ d_Style d' = write_back (d_Style d) linked.
Proof.
  unfold setup_style_tree, PyDict.items. intros H.
  destruct (link_bases _ _ _) as [[linked|e]|]; try discriminate.
  exists linked. split; [reflexivity|].
  destruct (mapM _ _) as [its|]; [|discriminate].
  injection H as <-. auto.
Qed.

(** ** The shape of a chain *)

Lemma base_loop_acc (fuel : nat) (idx : PyDict.t (Obj Style))
      (b : option (Obj Style)) (base : list string) :
  base_loop fuel idx b base
  = match base_loop fuel idx b [] with
    | Some (Ok c) => Some (Ok (base ++ c))
    | Some (Raise e) => Some (Raise e)
    | None => None
    end.
Proof.
  revert b base. induction fuel as [|f IH]; intros [b|] base; simpl;
    try reflexivity; try (now rewrite app_nil_r).
  destruct (get_base idx b) as [next|e]; [|reflexivity].
  rewrite (IH next (base ++ [style_id b])), (IH next [style_id b]).
  destruct (base_loop f idx next []) as [[c|e]|]; try reflexivity.
  now rewrite <- app_assoc.
Qed.

Lemma base_loop_more (fuel : nat) (idx : PyDict.t (Obj Style))
      (b : option (Obj Style)) (base : list string) (r : result (list string)) :
  base_loop fuel idx b base = Some r ->
  forall fuel', fuel <= fuel' -> base_loop fuel' idx b base = Some r.
Proof.
  revert b base. induction fuel as [|f IH]; intros [b|] base H fuel' Hle;
    simpl in H; try discriminate.
  - destruct fuel'; exact H.
  - destruct fuel' as [|f']; [lia|]. simpl.
    destruct (get_base idx b) as [next|e]; [|exact H].
    apply IH; [exact H | lia].
  - destruct fuel'; exact H.
Qed.

(** A chain is the style's own id, then the chain of its base. *)
Lemma base_loop_unfold (fuel : nat) (idx : PyDict.t (Obj Style))
      (s : Obj Style) (c : list string) :
  base_loop fuel idx (Some s) [] = Some (Ok c) ->
  exists next c', get_base idx s = Ok next /\ c = style_id s :: c' /\
                  base_loop fuel idx next [] = Some (Ok c').
Proof.
  destruct fuel as [|f]; intros H; simpl in H; [discriminate|].
  destruct (get_base idx s) as [next|e]; [|discriminate].
  rewrite base_loop_acc in H.
  destruct (base_loop f idx next []) as [[c'|e]|] eqn:E; try discriminate.
  injection H as <-. exists next, c'. repeat split.
  apply (base_loop_more _ _ _ _ _ E). lia.
Qed.

Lemma linked_get_base (fuel : nat) (idx linked : PyDict.t (Obj Style))
      (k : string) (s1 : Obj Style) :
  link_bases fuel idx idx = Some (Ok linked) ->
  PyDict.get k linked = Some s1 ->
  exists s c, PyDict.get k idx = Some s
              /\ base_loop fuel idx (Some s) [] = Some (Ok c)
              /\ s1 = with_body s (set_bases (body s) c).
Proof.
  intros Hl Hg. pose proof (link_bases_get _ _ _ _ k Hl) as H.
  destruct (PyDict.get k idx) as [s|]; [|congruence].
  destruct H as [c [Hc Hs]]. exists s, c. split; [reflexivity|].
  split; [exact Hc | congruence].
Qed.

(** The chain stored for a style: its id, then the chain stored for its base
    when the index has that base, and nothing otherwise. *)
Lemma linked_chain (fuel : nat) (idx linked : PyDict.t (Obj Style))
      (k : string) (s1 : Obj Style) :
  keyed_by_id idx ->
  link_bases fuel idx idx = Some (Ok linked) ->
  PyDict.get k linked = Some s1 ->
  exists c, bases (body s1) = Some (k :: c) /\
    match base_style (body s1) with
    | VStr a =>
        match PyDict.get a linked with
        | Some sa => bases (body sa) = Some c
        | None => c = []
        end
    | _ => c = []
    end.
Proof.
  intros Hkey Hl Hg.
  destruct (linked_get_base _ _ _ _ _ Hl Hg) as [s [c [Hs [Hc ->]]]].
  destruct (base_loop_unfold _ _ _ _ Hc) as [next [c' [Hb [-> Hn]]]].
  exists c'. simpl. rewrite (Hkey _ _ Hs). split; [reflexivity|].
  unfold get_base in Hb. destruct (base_style (body s)) as [|a|l]; try discriminate.
  - injection Hb as <-. destruct fuel; simpl in Hn; congruence.
  - injection Hb as <-.
    pose proof (link_bases_get _ _ _ _ a Hl) as H.
    destruct (PyDict.get a idx) as [sa|].
    + destruct H as [ca [Hca ->]]. simpl. congruence.
    + rewrite H. destruct fuel; simpl in Hn; congruence.
Qed.

Lemma linked_chains_closed (fuel : nat) (idx linked : PyDict.t (Obj Style)) :
  keyed_by_id idx ->
  link_bases fuel idx idx = Some (Ok linked) ->
  chains_closed linked.
Proof.
  intros Hkey Hl k s Hg.
  destruct (linked_chain _ _ _ _ _ Hkey Hl Hg) as [c [Hc Hrest]].
  exists c. split; [exact Hc|]. unfold stored_chain.
  destruct (base_style (body s)) as [|a|l]; auto.
  destruct (PyDict.get a linked) as [sa|] eqn:Ha; auto.
  right. now exists a, sa.
Qed.

(** ** Inheritance does not depend on the order in which styles are filled *)

Section Fill.

Variable idx : PyDict.t (Obj Style).
Variable m0 : PyDict.t StyleVal.
Variable def : StyleVal.
Hypothesis closed : chains_closed idx.

Lemma fill_inv_start : fill_inv idx m0 def m0.
Proof. split; auto. Qed.

(** Looking a stored chain up in the mapping filled so far gives what
    looking it up in the original mapping gives. *)
Lemma inherited_stable (m : PyDict.t StyleVal) :
  fill_inv idx m0 def m ->
  forall n c, length c <= n -> stored_chain idx c ->
              inherited m def c = inherited m0 def c.
Proof.
  intros [Hext Hnew]. induction n as [|n IH]; intros c Hlen Hc.
  - destruct c; [reflexivity | simpl in Hlen; lia].
  - destruct Hc as [->|[k [s [Hs Hb]]]]; [reflexivity|].
    destruct (closed _ _ Hs) as [c' [Hb' Hc']].
    assert (c = k :: c') by congruence. subst c.
    unfold inherited. simpl.
    destruct (PyDict.get k m) as [v|] eqn:Em.
    + destruct (Hnew _ _ Em) as [H0|[H0 [s' [c'' [Hs' [Hb'' ->]]]]]].
      * now rewrite H0.
      * rewrite H0. assert (c'' = k :: c') by congruence. subst c''.
        unfold inherited. simpl. now rewrite H0.
    + destruct (PyDict.get k m0) as [v|] eqn:E0.
      * rewrite (Hext _ _ E0) in Em. discriminate.
      * apply (IH c'); [simpl in Hlen; lia | exact Hc'].
Qed.

Lemma fill_style_inv (m m' : PyDict.t StyleVal) (k : string) (s : Obj Style) :
  PyDict.get k idx = Some s ->
  fill_inv idx m0 def m ->
  fill_style def m (k, s) = Ok m' ->
  fill_inv idx m0 def m'.
Proof.
  intros Hs Hinv. unfold fill_style.
  destruct (PyDict.mem k m) eqn:Ek; [now intros [= <-]|].
  apply mem_false in Ek.
  destruct (closed _ _ Hs) as [c [Hb Hc]]. rewrite Hb. simpl. rewrite Ek.
  assert (E0 : PyDict.get k m0 = None).
  { destruct Hinv as [Hext _]. destruct (PyDict.get k m0) as [v|] eqn:E; auto.
    rewrite (Hext _ _ E) in Ek. discriminate. }
  assert (Hv : match first_present c m with Some v => v | None => def end
               = inherited m0 def (k :: c)).
  { change (inherited m def c = inherited m0 def (k :: c)).
    rewrite (inherited_stable m Hinv (length c) c (le_n _) Hc).
    unfold inherited. simpl. now rewrite E0. }
  intros H.
  assert (Hm' : m' = PyDict.set k (inherited m0 def (k :: c)) m).
  { rewrite <- Hv. destruct (first_present c m); congruence. }
  subst m'. clear H Hv. destruct Hinv as [Hext Hnew]. split.
  - intros x v Hx. rewrite get_set.
    destruct (String.eqb x k) eqn:E; [|auto].
    apply String.eqb_eq in E. subst x. congruence.
  - intros x v. rewrite get_set.
    destruct (String.eqb x k) eqn:E; [|auto].
    apply String.eqb_eq in E. subst x. intros [= <-].
    right. split; [exact E0|]. now exists s, (k :: c).
Qed.

Lemma fill_styles_inv (todo : list (string * Obj Style)) (m m' : PyDict.t StyleVal) :
  (forall e, In e todo -> PyDict.get (fst e) idx = Some (snd e)) ->
  fill_inv idx m0 def m ->
  fill_styles def todo m = Ok m' ->
  fill_inv idx m0 def m'.
Proof.
  revert m. induction todo as [|[k s] r IH]; intros m Hin Hinv H;
    cbn [fill_styles] in H.
  - now injection H as <-.
  - destruct (fill_style def m (k, s)) as [m1|] eqn:E; cbn [bind] in H;
      [|discriminate].
    apply (IH m1); auto; [intros e He; apply Hin; now right|].
    apply (fill_style_inv m m1 k s); auto. apply (Hin (k, s)). now left.
Qed.

(** A style the version had no data for ends up with its inherited data. *)
Lemma fill_styles_inherited (m' : PyDict.t StyleVal) (k : string) (s : Obj Style)
      (c : list string) :
  NoDup (PyDict.keys idx) ->
  fill_styles def (PyDict.items idx) m0 = Ok m' ->
  PyDict.get k idx = Some s -> bases (body s) = Some c ->
  PyDict.get k m0 = None ->
  PyDict.get k m' = Some (inherited m0 def c).
Proof.
  intros Hnd Hf Hs Hb H0.
  assert (Hinv : fill_inv idx m0 def m').
  { apply (fill_styles_inv (PyDict.items idx) m0 m'); auto using fill_inv_start.
    intros [k' s'] Hin. now apply in_get. }
  destruct (fill_styles_mem _ _ _ _ Hf) as [Hall _].
  specialize (Hall (k, s) (get_in _ _ _ Hs)). simpl in Hall.
  apply mem_true in Hall. destruct Hall as [v Hv].
  destruct Hinv as [_ Hnew].
  destruct (Hnew _ _ Hv) as [H|[_ [s' [c' [Hs' [Hb' ->]]]]]]; congruence.
Qed.

End Fill.

(** ** The styles handed back *)

Lemma get_index_styles (l : list (Obj Style)) (k : string) :
  PyDict.get k (index_styles l) = find (has_id k) (rev l).
Proof.
  induction l as [|s l IH] using rev_ind; [reflexivity|].
  rewrite index_styles_snoc, get_set, rev_app_distr. simpl. unfold has_id at 1.
  rewrite String.eqb_sym. now destruct (String.eqb (style_id s) k).
Qed.

Lemma find_snoc {A} (p : A -> bool) (l : list A) (x : A) :
  find p (l ++ [x])
  = match find p l with
    | Some y => Some y
    | None => if p x then Some x else None
    end.
Proof.
  induction l as [|a l IH]; simpl; [reflexivity|]. now destruct (p a).
Qed.

Lemma find_rev_write_back (linked : PyDict.t (Obj Style)) (l : list (Obj Style))
      (k : string) :
  keyed_by_id linked ->
  find (has_id k) (rev (write_back l linked))
  = match find (has_id k) (rev l) with
    | Some s => Some (match PyDict.get k linked with Some s' => s' | None => s end)
    | None => None
    end.
Proof.
  intros Hkey. induction l as [|s r IH]; [reflexivity|].
  cbn [write_back rev]. rewrite !find_snoc, IH.
  destruct (find (has_id k) (rev r)) as [s0|] eqn:E; [reflexivity|].
  set (x := if existsb _ r then s else _).
  assert (Hid : style_id x = style_id s).
  { subst x. destruct (existsb _ r); [reflexivity|].
    destruct (PyDict.get (style_id s) linked) as [s'|] eqn:Es; [|reflexivity].
    now apply Hkey. }
  assert (Hx : has_id k x = has_id k s) by (unfold has_id; now rewrite Hid).
  rewrite Hx. unfold has_id.
  destruct (String.eqb (style_id s) k) eqn:Ek; [|reflexivity].
  apply String.eqb_eq in Ek. f_equal. subst x.
  destruct (existsb (fun s' => String.eqb (style_id s') (style_id s)) r) eqn:Ex.
  - apply existsb_exists in Ex. destruct Ex as [y [Hy Hyk]].
    pose proof (find_none _ _ E y (proj1 (in_rev r y) Hy)) as Hn.
    unfold has_id in Hn. rewrite <- Ek in Hn. congruence.
  - now rewrite Ek.
Qed.

(** The index of the styles handed back is the index with the chains. *)
Lemma index_write_back (fuel : nat) (l : list (Obj Style))
      (linked : PyDict.t (Obj Style)) (k : string) :
  link_bases fuel (index_styles l) (index_styles l) = Some (Ok linked) ->
  PyDict.get k (index_styles (write_back l linked)) = PyDict.get k linked.
Proof.
  intros Hl.
  assert (Hkey : keyed_by_id linked).
  { intros k' s' Hg.
    destruct (linked_get_base _ _ _ _ _ Hl Hg) as [s [c [Hs [_ ->]]]].
    apply (index_styles_keyed l _ _ Hs). }
  rewrite get_index_styles, (find_rev_write_back _ _ _ Hkey), <- get_index_styles.
  pose proof (link_bases_get _ _ _ _ k Hl) as H.
  destruct (PyDict.get k (index_styles l)) as [s|].
  - destruct H as [c [_ ->]]. reflexivity.
  - now rewrite H.
Qed.

Lemma linked_nodup (fuel : nat) (l : list (Obj Style))
      (linked : PyDict.t (Obj Style)) :
  link_bases fuel (index_styles l) (index_styles l) = Some (Ok linked) ->
  NoDup (PyDict.keys linked).
Proof.
  intros Hl. rewrite (link_bases_keys _ _ _ _ Hl). apply index_styles_nodup.
Qed.



(** ** Termination of the chain loop *)

Section Chains.

Variable idx : PyDict.t (Obj Style).
Hypothesis keyed : keyed_by_id idx.

Lemma rpath_reaches (b : string) (l : list string) :
  rpath idx (b :: l) ->
  forall x, In x l -> clos_trans string (base_step idx) x b.
Proof.
  revert b. induction l as [|a l IH]; intros b H x Hx; [destruct Hx|].
  inversion H as [|? ? ? Hstep Hrest]; subst.
  destruct Hx as [<-|Hx].
  - now apply t_step.
  - apply t_trans with a; [now apply IH | now apply t_step].
Qed.

Lemma rpath_nodup (l : list string) :
  acyclic idx -> rpath idx l -> NoDup l.
Proof.
  intros Hac H. induction H as [k Hk|b a l Hstep Hrest IH].
  - repeat constructor. simpl. tauto.
  - constructor; [|exact IH]. intros Hin.
    apply (Hac b). apply (rpath_reaches b (a :: l)); [|exact Hin].
    now constructor.
Qed.

Lemma rpath_keys (l : list string) :
  rpath idx l -> incl l (PyDict.keys idx).
Proof.
  intros H. induction H as [k Hk|b a l [s [_ [_ Hb]]] Hrest IH]; intros x Hx.
  - destruct Hx as [<-|[]]. now apply mem_keys.
  - destruct Hx as [<-|Hx]; [now apply mem_keys | now apply IH].
Qed.

Lemma rpath_length (l : list string) :
  acyclic idx -> rpath idx l -> length l <= length idx.
Proof.
  intros Hac H.
  replace (length idx) with (length (PyDict.keys idx))
    by (unfold PyDict.keys; apply length_map).
  apply NoDup_incl_length; [now apply rpath_nodup | now apply rpath_keys].
Qed.

(** One more round of the loop keeps the visited ids a path. *)
Lemma rpath_step (b b' : Obj Style) (base : list string) :
  PyDict.get (style_id b) idx = Some b ->
  rpath idx (style_id b :: rev base) ->
  get_base idx b = Ok (Some b') ->
  PyDict.get (style_id b') idx = Some b' /\
  rpath idx (style_id b' :: rev (base ++ [style_id b])).
Proof.
  intros Hb Hp Hg. unfold get_base in Hg.
  destruct (base_style (body b)) as [|a|l] eqn:Ea; try discriminate.
  injection Hg as Hg. pose proof (keyed _ _ Hg) as Hid. subst a.
  split; [exact Hg|]. rewrite rev_unit. constructor; [|exact Hp].
  exists b. repeat split; auto. apply mem_true. eauto.
Qed.

Lemma base_loop_total (n : nat) (base : list string) (b : Obj Style) :
  acyclic idx ->
  PyDict.get (style_id b) idx = Some b ->
  rpath idx (style_id b :: rev base) ->
  length base + n = length idx ->
  exists r, base_loop n idx (Some b) base = Some r.
Proof.
  intros Hac. revert base b. induction n as [|n IH]; intros base b Hb Hp Hlen.
  - apply (rpath_length _ Hac) in Hp. simpl in Hp. rewrite length_rev in Hp. lia.
  - simpl. destruct (get_base idx b) as [[b'|]|e] eqn:Eg.
    + destruct (rpath_step _ _ _ Hb Hp Eg) as [Hb' Hp'].
      apply IH; auto. rewrite length_app. simpl. lia.
    + destruct n; simpl; eauto.
    + eauto.
Qed.

Lemma base_loop_rpath (n : nat) (base : list string) (b : Obj Style)
      (c : list string) :
  PyDict.get (style_id b) idx = Some b ->
  rpath idx (style_id b :: rev base) ->
  base_loop n idx (Some b) base = Some (Ok c) ->
  rpath idx (rev c).
Proof.
  revert base b. induction n as [|n IH]; intros base b Hb Hp H; simpl in H;
    [discriminate|].
  destruct (get_base idx b) as [[b'|]|e] eqn:Eg; try discriminate.
  - destruct (rpath_step _ _ _ Hb Hp Eg) as [Hb' Hp'].
    now apply (IH (base ++ [style_id b]) b').
  - assert (c = base ++ [style_id b]) by (destruct n; simpl in H; congruence).
    subst c. now rewrite rev_unit.
Qed.

(** Without a cycle the loop leaves within as many rounds as the index has
    styles, and the chain it built visits no style twice. *)
Lemma chain_terminates (k : string) (s : Obj Style) :
  acyclic idx ->
  PyDict.get k idx = Some s ->
  exists r, base_loop (length idx) idx (Some s) [] = Some r /\
            forall c, r = Ok c -> NoDup c /\ length c <= length idx.
Proof.
  intros Hac Hs. pose proof (keyed _ _ Hs) as Hid. subst k.
  assert (Hp : rpath idx (style_id s :: rev [])).
  { constructor. apply mem_true. eauto. }
  destruct (base_loop_total (length idx) [] s Hac Hs Hp eq_refl) as [r Hr].
  exists r. split; [exact Hr|]. intros c ->.
  apply (base_loop_rpath _ _ _ _ Hs Hp) in Hr. split.
  - rewrite <- (rev_involutive c). apply NoDup_rev. now apply rpath_nodup.
  - rewrite <- length_rev. now apply rpath_length.
Qed.

Lemma link_bases_total (todo : list (string * Obj Style)) :
  acyclic idx ->
  (forall e, In e todo -> PyDict.get (fst e) idx = Some (snd e)) ->
  exists r, link_bases (length idx) idx todo = Some r.
Proof.
  intros Hac. induction todo as [|[k s] rest IH]; intros Hin; simpl; [eauto|].
  destruct (chain_terminates k s Hac (Hin (k, s) (or_introl eq_refl)))
    as [r [Hr _]].
  rewrite Hr. destruct r as [c|e]; [|eauto].
  destruct IH as [[r'|e] Hr'].
  - intros e He. apply Hin. now right.
  - rewrite Hr'. eauto.
  - rewrite Hr'. eauto.
Qed.

End Chains.

(** A ranking that falls along every base link rules cycles out. *)
Lemma ranked_acyclic (idx : PyDict.t (Obj Style)) (rank : string -> nat) :
  (forall a b, base_step idx a b -> rank b < rank a) -> acyclic idx.
Proof.
  intros Hrank k Hk.
  assert (H : forall a b, clos_trans string (base_step idx) a b -> rank b < rank a).
  { intros a b Hab. induction Hab as [a b Hab|a b c _ H1 _ H2]; [auto | lia]. }
  specialize (H _ _ Hk). lia.
Qed.

Lemma sample_tree_acyclic : acyclic (index_styles (d_Style Sample.tree)).
Proof.
  apply (ranked_acyclic _ (fun k => if String.eqb k "B" then 1 else 0)).
  intros a b [s [Hs [Hb Hm]]].
  change (index_styles (d_Style Sample.tree))
    with [("A", Sample.style "A" VNone); ("B", Sample.style "B" (VStr "A"));
          ("C", Sample.style "C" (VStr "missing-id"))] in Hs, Hm.
  simpl in Hs.
  destruct (String.eqb a "A"); [injection Hs as <-; discriminate|].
  destruct (String.eqb a "B") eqn:Eb.
  - injection Hs as <-. injection Hb as <-. simpl. lia.
  - destruct (String.eqb a "C"); [|discriminate].
    injection Hs as <-. injection Hb as <-. discriminate.
Qed.

Lemma cycle_loops (fuel : nat) (base : list string) :
  base_loop fuel (index_styles (d_Style Sample.cycle))
            (Some (Sample.style "A" (VStr "B"))) base = None /\
  base_loop fuel (index_styles (d_Style Sample.cycle))
            (Some (Sample.style "B" (VStr "A"))) base = None.
Proof.
  revert base. induction fuel as [|f IH]; intros base; [split; reflexivity|].
  split.
  - change (base_loop f (index_styles (d_Style Sample.cycle))
              (Some (Sample.style "B" (VStr "A"))) (base ++ ["A"]) = None).
    apply IH.
  - change (base_loop f (index_styles (d_Style Sample.cycle))
              (Some (Sample.style "A" (VStr "B"))) (base ++ ["B"]) = None).
    apply IH.
Qed.


(** ** The definition collector *)



(** C4 fails on the code.  A package defines style [A] and overrides it
    twice: the collector leaves a one-element list in place of the category's
    dictionary of overrides, holding the second override only, and [loadAll]
    then fails on that list. *)
Theorem overrides_are_overwritten :
  obj_override
    (fst (parse_package Sample.over_zip Sample.over_info "base.zip" "base"
                        (VStr "base") (reset initial))) CStyle
  = OvList [(Sample.over_zip, Sample.over_2)]
  /\ snd (loadAll 1 [Sample.entry Sample.over_zip] initial)
     = Some (Raise AttributeError).
Proof. split; vm_compute; reflexivity. Qed.

(** An override that meets no original is stored as the original. *)
Lemma override_without_original (zip : Zip) (pak_id : string) (dispName : Value)
      (c : comp_type) (object : Property) (id : string) (g : Globals) :
  getitem object "id" = Ok (VStr id) ->
  PyDict.mem id (obj g c) = false ->
  collect_one zip pak_id dispName c object g
  = (set_obj c id (mkRawDef zip object pak_id dispName) g, Ok tt).
Proof.
  intros Hid Hmem. unfold collect_one. rewrite Hid. cbn [bind as_str].
  now rewrite Hmem.
Qed.

(** ** A definition without [id] *)

Lemma collect_app (zip : Zip) (pak_id : string) (dispName : Value)
      (pre post : list (comp_type * Property)) (n m : nat) (g g1 : Globals) :
  collect zip pak_id dispName pre n g = (g1, Ok m) ->
  collect zip pak_id dispName (pre ++ post) n g
  = collect zip pak_id dispName post m g1.
Proof.
  revert n g. induction pre as [|[c object] pre IH]; intros n g H.
  - simpl in H. now injection H as <- <-.
  - cbn [collect app] in *.
    destruct (collect_one zip pak_id dispName c object g) as [g' [u|e]];
      [now apply IH | discriminate].
Qed.

Lemma scan_packages_app (before after : list Package) (k n : nat)
      (g g2 : Globals) :
  scan_packages before n g = (g2, Ok k) ->
  scan_packages (before ++ after) n g = scan_packages after k g2.
Proof.
  revert n g. induction before as [|p before IH]; intros n g H.
  - simpl in H. now injection H as <- <-.
  - cbn [scan_packages app] in *.
    destruct (parse_package _ _ _ _ _ _) as [g' [m|e]];
      [now apply IH | discriminate].
Qed.

(** C8, as the code has it.  A definition node without [id] raises, and
    nothing catches it: collection stops at that node with the globals as the
    definitions before it left them, and [loadAll] ends with the exception. *)
Theorem missing_id_aborts_load
        (fuel : nat) (contents : list DirEntry) (g g1 g2 g3 g4 : Globals)
        (before after : list Package) (p : Package) (k n : nat)
        (pres : list Property) (pre post : list (comp_type * Property))
        (c : comp_type) (object : Property) :
  read_packages contents g = (g1, Ok tt) ->
  PyDict.values (packages g1) = before ++ p :: after ->
  scan_packages before 0 (reset g1) = (g2, Ok k) ->
  iter_nodes (find_key_def (p_info p) "Prerequisites" (VList [])) = Ok pres ->
  check_prereqs pres (p_id p)
                (print ("Scanning package '" ++ p_id p ++ "'")%string g2)
  = (g3, Ok true) ->
  definitions (p_info p) = pre ++ (c, object) :: post ->
  collect (p_zip p) (p_id p) (p_dispName p) pre 0 g3 = (g4, Ok n) ->
  find_first "id" (children_of (prop_value object)) = None ->
  parse_package (p_zip p) (p_info p) (p_name p) (p_id p) (p_dispName p)
                (print ("Scanning package '" ++ p_id p ++ "'")%string g2)
  = (g4, Raise NoKeyError)
  /\ loadAll fuel contents g = (g4, Some (Raise NoKeyError)).
Proof.
  intros Hread Hvals Hbefore Hpres Hcheck Hdefs Hpre Hid.
  assert (Hp : parse_package (p_zip p) (p_info p) (p_name p) (p_id p) (p_dispName p)
                 (print ("Scanning package '" ++ p_id p ++ "'")%string g2)
               = (g4, Raise NoKeyError)).
  { unfold parse_package. rewrite Hpres, Hcheck, Hdefs.
    rewrite (collect_app _ _ _ _ _ _ _ _ _ Hpre). cbn [collect].
    unfold collect_one, getitem, find_key. rewrite Hid. reflexivity. }
  split; [exact Hp|].
  unfold loadAll. rewrite Hread, Hvals.
  rewrite (scan_packages_app _ _ _ _ _ _ Hbefore). cbn [scan_packages].
  now rewrite Hp.
Qed.

(** The first package of the sample directory has a style without [id]. *)
Lemma missing_id_aborts_load_witness :
  let g1 := fst (read_packages Sample.bad_dir initial) in
  let g4 := print "Scanning package 'bad'" (reset g1) in
  parse_package Sample.bad_zip Sample.bad_info "bad.zip" "bad" (VStr "bad") g4
  = (g4, Raise NoKeyError)
  /\ loadAll 1 Sample.bad_dir initial = (g4, Some (Raise NoKeyError)).
Proof.
  exact (missing_id_aborts_load 1 Sample.bad_dir initial
           (fst (read_packages Sample.bad_dir initial))
           (reset (fst (read_packages Sample.bad_dir initial)))
           (print "Scanning package 'bad'"
                  (reset (fst (read_packages Sample.bad_dir initial))))
           (print "Scanning package 'bad'"
                  (reset (fst (read_packages Sample.bad_dir initial))))
           []
           [mkPackage "good" Sample.good_zip (PLeaf "ID" "good" :: Sample.style_A :: nil)
                      "good.zip" (VStr "good")]
           (mkPackage "bad" Sample.bad_zip Sample.bad_info "bad.zip" (VStr "bad"))
           0 0 [] []
           [(CItem, PBlock "Item" [PLeaf "id" "widget"])]
           CStyle (PBlock "Style" [PLeaf "name" "nameless"])
           eq_refl eq_refl eq_refl eq_refl eq_refl eq_refl eq_refl eq_refl).
Defined.

(** C8 fails as stated: the load of the sample directory ends with the
    exception, and neither the item that follows the faulty style in the same
    package nor the style of the second package has been collected. *)
Lemma missing_id_is_not_local :
  snd (loadAll 1 Sample.bad_dir initial) = Some (Raise NoKeyError)
  /\ obj (fst (loadAll 1 Sample.bad_dir initial)) CItem = []
  /\ obj (fst (loadAll 1 Sample.bad_dir initial)) CStyle = [].
Proof. repeat split; vm_compute; reflexivity. Qed.

(** ** The category parsers *)

(** C5 fails on the code.  Of an item with two versions on two folders, the
    first version has its [styles] entry rewritten to its own folder [f1],
    and its [def_style] to the folder [f2] of the last version. *)
Theorem def_style_of_last_version :
  exists it v1 v2,
    ItemC.parse Sample.items_zip "widget" Sample.two_versions = Ok it
    /\ versions it = [v1; v2]
    /\ PyDict.get "A" (styles v1) = Some (Resolved (Sample.loaded "f1"))
    /\ def_style v1 = Resolved (Sample.loaded "f2")
    /\ def_style v2 = Resolved (Sample.loaded "f2")
    /\ Sample.loaded "f1" <> Sample.loaded "f2".
Proof.
  do 3 eexists. split; [vm_compute; reflexivity|].
  repeat split; try reflexivity. discriminate.
Qed.

(** The [styles] values of every version are the data of the folders the
    version names. *)
Lemma rewrite_styles_resolved (folders : PyDict.t FolderData)
      (l sts : PyDict.t StyleVal) :
  ItemC.rewrite_styles folders l = Ok sts ->
  Forall2 (fun e e' =>
             fst e' = fst e /\
             exists fold f, snd e = Raw (VStr fold)
                            /\ PyDict.get fold folders = Some f
                            /\ snd e' = Resolved f)
          l sts.
Proof.
  revert sts. induction l as [|[sty fold] r IH]; intros sts H; cbn in H.
  - injection H as <-. constructor.
  - destruct fold as [[|s|l]|f]; try discriminate. cbn in H.
    destruct (PyDict.get s folders) as [f|] eqn:E; [|discriminate]. cbn in H.
    destruct (ItemC.rewrite_styles folders r) as [r'|]; [|discriminate].
    injection H as <-. constructor; [|now apply IH].
    simpl. split; [reflexivity|]. now exists s, f.
Qed.

(** C6 fails on the code: [Skybox.add_over] reads [sky], which nothing
    binds, so every call raises. *)
Theorem skybox_add_over_raises (self override : Skybox) (zip : Zip) :
  add_over_cls CSkybox self override zip = Raise NameError.
Proof. reflexivity. Qed.

(** The three sound mergers append the lists of the override. *)
Lemma add_over_appends :
  (forall (self override : Goo) (zip : Zip),
      exists o, add_over_cls CGoo self override zip = Ok o
                /\ g_config o = g_config self ++ g_config override
                /\ g_auth o = g_auth self ++ g_auth override) /\
  (forall (self override : Music) (zip : Zip),
      exists o, add_over_cls CMusic self override zip = Ok o
                /\ m_config o = m_config self ++ m_config override
                /\ m_auth o = m_auth self ++ m_auth override) /\
  (forall (self override : StyleVar) (zip : Zip),
      exists o, add_over_cls CStyleVar self override zip = Ok o
                /\ sv_styles o = sv_styles self ++ sv_styles override).
Proof. repeat split; intros; eexists; repeat split. Qed.

(** C10. [Item.parse] raises on a definition without a [version] block, and
    an item it returns has at least one version. *)
Theorem item_has_a_version (zip : Zip) (id : string) (info : Property) :
  (find_all (children_of (prop_value info)) "version" = [] ->
   ItemC.parse zip id info = Raise IndexError)
  /\ (forall it, ItemC.parse zip id info = Ok it -> versions it <> [])
  /\ (forall vs it, ItemC.init id vs = Ok it -> versions it = vs /\ vs <> []).
Proof.
  split; [|split].
  - intros H. unfold ItemC.parse. rewrite H. reflexivity.
  - intros it H. unfold ItemC.parse in H.
    destruct (ItemC.scan_versions _ _ _) as [[vs names]|]; [|discriminate].
    cbn [bind] in H.
    destruct (ItemC.load_folders zip names) as [folders|]; [|discriminate].
    cbn [bind] in H.
    destruct (mapM _ vs) as [[|v vs']|]; try discriminate.
    injection H as <-. discriminate.
  - intros [|v vs] it H; [discriminate|].
    injection H as <-. split; [reflexivity | discriminate].
Qed.

(** An item without versions, and one with two. *)
Lemma item_has_a_version_witness :
  ItemC.parse Sample.items_zip "widget" Sample.no_version = Raise IndexError
  /\ exists it, ItemC.parse Sample.items_zip "widget" Sample.two_versions = Ok it
                /\ versions it <> [].
Proof.
  split.
  - exact (proj1 (item_has_a_version Sample.items_zip "widget" Sample.no_version)
                 eq_refl).
  - eexists. split; [vm_compute; reflexivity|].
    apply (proj1 (proj2 (item_has_a_version Sample.items_zip "widget"
                                            Sample.two_versions))).
    vm_compute. reflexivity.
Defined.

(** ** A configuration the archive lacks *)

Lemma open_parse_absent (zip : Zip) (path : string) :
  in_names path zip = false -> open_parse zip path = Raise KeyError.
Proof.
  unfold in_names, namelist, open_parse. intros H.
  destruct (PyDict.get path (z_entries zip)) as [t|] eqn:E; [|reflexivity].
  assert (Hin : In path (PyDict.keys (z_entries zip))).
  { apply mem_keys, mem_true. eauto. }
  assert (Hex : existsb (String.eqb path) (PyDict.keys (z_entries zip)) = true).
  { apply existsb_exists. exists path. split; [exact Hin | apply String.eqb_refl]. }
  congruence.
Qed.

(** C7, as the code has it.  With the named resource absent from the archive,
    [Skybox.parse] prints a line and returns a skybox without configuration,
    [Goo.parse] and [Music.parse] return theirs without printing, and
    [Voice.parse] raises. *)
Theorem absent_config (zip : Zip) (id : string) (info : Property) (sel : SelItem) :
  get_selitem_data info = Ok sel ->
  (forall name,
      sel_name sel = VStr name ->
      value_is (getitem_def info "config" (VStr EmptyString)) EmptyString = false ->
      in_names ("skybox/" ++ name ++ ".cfg")%string zip = false ->
      exists o, parse_cls CSkybox zip id info
                = ([(name ++ ".cfg not in zip!")%string], Ok o)
                /\ sk_config o = []) /\
  (forall cfg,
      getitem_def info "config" (VStr EmptyString) = VStr cfg ->
      in_names ("goo/" ++ cfg)%string zip = false ->
      exists o, parse_cls CGoo zip id info = ([], Ok o) /\ g_config o = []) /\
  (forall cfg inst,
      getitem info "instance" = Ok inst ->
      getitem_def info "config" (VStr EmptyString) = VStr cfg ->
      in_names ("music/" ++ cfg)%string zip = false ->
      exists o, parse_cls CMusic zip id info = ([], Ok o) /\ m_config o = []) /\
  (forall file,
      getitem info "file" = Ok (VStr file) ->
      in_names ("voice/" ++ file ++ ".voice")%string zip = false ->
      parse_cls CQuotePack zip id info = ([], Raise KeyError)).
Proof.
  intros Hsel. repeat split.
  - intros name Hname Hcfg Hin. cbn [parse_cls]. unfold SkyboxC.parse.
    rewrite Hsel, Hcfg, Hname, Hin. eexists. split; reflexivity.
  - intros cfg Hcfg Hin. cbn [parse_cls]. unfold GooC.parse, quiet.
    rewrite Hsel, Hcfg. cbn [bind concat_val as_str].
    replace (cfg ++ "")%string with cfg in *
      by (clear; induction cfg; simpl; congruence).
    rewrite Hin. cbn [bind]. eexists. split; reflexivity.
  - intros cfg inst Hinst Hcfg Hin. cbn [parse_cls]. unfold MusicC.parse, quiet.
    rewrite Hsel, Hinst, Hcfg. cbn [bind concat_val as_str].
    replace (cfg ++ "")%string with cfg in *
      by (clear; induction cfg; simpl; congruence).
    rewrite Hin. cbn [bind]. eexists. split; reflexivity.
  - intros file Hfile Hin. cbn [parse_cls]. unfold VoiceC.parse, quiet.
    rewrite Hsel, Hfile. cbn [bind concat_val as_str].
    now rewrite (open_parse_absent _ _ Hin).
Qed.

(** Four definitions that name a file, read from an archive without entries. *)
Lemma absent_config_witness :
  (exists o, parse_cls CSkybox Sample.bare_zip "S" Sample.lone_sky
             = (["sky.cfg not in zip!"], Ok o) /\ sk_config o = []) /\
  (exists o, parse_cls CGoo Sample.bare_zip "G" Sample.lone_goo = ([], Ok o)
             /\ g_config o = []) /\
  (exists o, parse_cls CMusic Sample.bare_zip "M" Sample.lone_music = ([], Ok o)
             /\ m_config o = []) /\
  parse_cls CQuotePack Sample.bare_zip "V" Sample.lone_voice = ([], Raise KeyError).
Proof.
  split; [|split; [|split]].
  - exact (proj1 (absent_config Sample.bare_zip "S" Sample.lone_sky _ eq_refl)
                 "sky" eq_refl eq_refl eq_refl).
  - exact (proj1 (proj2 (absent_config Sample.bare_zip "G" Sample.lone_goo _ eq_refl))
                 "goo.cfg" eq_refl eq_refl).
  - exact (proj1 (proj2 (proj2 (absent_config Sample.bare_zip "M" Sample.lone_music
                                              _ eq_refl)))
                 "tune.cfg" (VStr "inst") eq_refl eq_refl eq_refl).
  - exact (proj2 (proj2 (proj2 (absent_config Sample.bare_zip "V" Sample.lone_voice
                                              _ eq_refl)))
                 "lines" eq_refl eq_refl).
Defined.

(** C7 fails as stated: the voice pack whose file the archive lacks is not
    parsed at all, and the goo and the music whose configuration it lacks are
    parsed without a line being printed. *)
Lemma absent_voice_file_raises :
  parse_cls CQuotePack Sample.bare_zip "V" Sample.lone_voice = ([], Raise KeyError)
  /\ fst (parse_cls CGoo Sample.bare_zip "G" Sample.lone_goo) = []
  /\ fst (parse_cls CMusic Sample.bare_zip "M" Sample.lone_music) = [].
Proof. repeat split. Qed.

(** * Further properties *)

(** ** Separated values *)

Lemma split_no_delimiter (d : ascii) (s : string) :
  Forall (fun t => has_char d t = false) (split d s).
Proof.
  induction s as [|c r IH]; simpl; [repeat constructor|].
  destruct (Ascii.eqb c d) eqn:E; [now constructor|].
  destruct (split d r) as [|h t]; [repeat constructor; simpl; now rewrite E|].
  inversion IH; subst. constructor; [simpl; now rewrite E | assumption].
Qed.

Lemma split_not_nil (d : ascii) (s : string) : split d s <> [].
Proof.
  destruct s as [|c r]; simpl; [discriminate|].
  destruct (Ascii.eqb c d); [discriminate|]. now destruct (split d r).
Qed.

Lemma lstrip_no_char (d : ascii) (s : string) :
  has_char d s = false -> has_char d (lstrip s) = false.
Proof.
  induction s as [|c r IH]; simpl; [reflexivity|]. intros H.
  apply orb_false_iff in H. destruct H as [Hc Hr].
  destruct (is_space c); [auto | simpl; now rewrite Hc, Hr].
Qed.

Lemma rstrip_no_char (d : ascii) (s : string) :
  has_char d s = false -> has_char d (rstrip s) = false.
Proof.
  induction s as [|c r IH]; simpl; [reflexivity|]. intros H.
  apply orb_false_iff in H. destruct H as [Hc Hr]. specialize (IH Hr).
  destruct (rstrip r) as [|c' r'].
  - destruct (is_space c); simpl; [reflexivity | now rewrite Hc].
  - cbn [has_char]. rewrite Hc. exact IH.
Qed.

Lemma rstrip_idempotent (s : string) : rstrip (rstrip s) = rstrip s.
Proof.
  induction s as [|c r IH]; simpl; [reflexivity|].
  destruct (rstrip r) as [|c' r'] eqn:E.
  - destruct (is_space c) eqn:Ec; simpl; [reflexivity | now rewrite Ec].
  - cbn [rstrip] in *. now rewrite IH.
Qed.

Lemma lstrip_head (s : string) :
  lstrip s = EmptyString \/
  exists c r, lstrip s = String c r /\ is_space c = false.
Proof.
  induction s as [|c r IH]; simpl; [now left|].
  destruct (is_space c) eqn:E; [exact IH|]. right. now exists c, r.
Qed.

Lemma lstrip_rstrip_lstrip (s : string) :
  lstrip (rstrip (lstrip s)) = rstrip (lstrip s).
Proof.
  destruct (lstrip_head s) as [->|[c [r [-> Hc]]]]; [reflexivity|].
  cbn [rstrip]. destruct (rstrip r); rewrite ?Hc; cbn [lstrip]; now rewrite Hc.
Qed.

Lemma strip_idempotent (s : string) : strip (strip s) = strip s.
Proof.
  unfold strip. now rewrite lstrip_rstrip_lstrip, rstrip_idempotent.
Qed.

(** ** Descriptions *)

Lemma lower_idempotent (c : ascii) : lower (lower c) = lower c.
Proof.
  destruct c as [[] [] [] [] [] [] [] []]; vm_compute; reflexivity.
Qed.

Lemma casefold_idempotent (s : string) : casefold (casefold s) = casefold s.
Proof.
  induction s as [|c r IH]; simpl; [reflexivity|].
  now rewrite lower_idempotent, IH.
Qed.

(** ** More on the definition collector *)

Lemma comp_eqb_eq (a b : comp_type) : comp_eqb a b = true <-> a = b.
Proof. destruct a, b; vm_compute; split; congruence. Qed.

Lemma upd_same {A} (f : comp_type -> A) (c : comp_type) (a : A) : upd f c a c = a.
Proof.
  unfold upd. replace (comp_eqb c c) with true; [reflexivity|].
  symmetry. now apply comp_eqb_eq.
Qed.

Lemma upd_other {A} (f : comp_type -> A) (c c' : comp_type) (a : A) :
  c' <> c -> upd f c a c' = f c'.
Proof.
  intros H. unfold upd. destruct (comp_eqb c' c) eqn:E; [|reflexivity].
  apply comp_eqb_eq in E. contradiction.
Qed.

Lemma check_prereqs_globals (pres : list Property) (pak_id : string)
      (g g' : Globals) (r : result bool) :
  check_prereqs pres pak_id g = (g', r) ->
  packages g' = packages g /\ obj g' = obj g /\ obj_override g' = obj_override g
  /\ data g' = data g.
Proof.
  revert g. induction pres as [|pre rest IH]; intros g H; simpl in H.
  - now injection H as <- _.
  - destruct (as_str (prop_value pre)) as [name|e]; [|now injection H as <- _].
    destruct (PyDict.mem name (packages g)); [now apply IH|].
    now injection H as <- _.
Qed.

Lemma check_prereqs_missing (ok rest : list Property) (missing : Property)
      (name pak_id : string) (g : Globals) :
  Forall (fun pre => exists n, prop_value pre = VStr n
                               /\ PyDict.mem n (packages g) = true) ok ->
  prop_value missing = VStr name ->
  PyDict.mem name (packages g) = false ->
  check_prereqs (ok ++ missing :: rest) pak_id g
  = (print (prereq_line name pak_id) g, Ok false).
Proof.
  intros Hok Hv Hm.
  induction Hok as [|pre ok [n [Hn Hmem]] _ IH]; cbn [app check_prereqs].
  - rewrite Hv. cbn [as_str]. now rewrite Hm.
  - rewrite Hn. cbn [as_str]. now rewrite Hmem.
Qed.

(** X3. A package with a prerequisite that is not registered is turned down:
    [parse_package] writes one line naming the first such prerequisite and
    returns 0 without raising, and of the globals only the log has changed,
    so none of the package's definitions is collected. *)
Theorem missing_prerequisite_rejects_package
        (zip : Zip) (info : list Property) (filename pak_id : string)
        (dispName : Value) (g : Globals)
        (ok rest : list Property) (missing : Property) (name : string) :
  iter_nodes (find_key_def info "Prerequisites" (VList []))
  = Ok (ok ++ missing :: rest) ->
  Forall (fun pre => exists n, prop_value pre = VStr n
                               /\ PyDict.mem n (packages g) = true) ok ->
  prop_value missing = VStr name ->
  PyDict.mem name (packages g) = false ->
  let g' := print (prereq_line name pak_id) g in
  parse_package zip info filename pak_id dispName g = (g', Ok 0)
  /\ obj g' = obj g /\ obj_override g' = obj_override g.
Proof.
  intros Hpres Hok Hv Hm g'. repeat split.
  unfold parse_package. rewrite Hpres.
  now rewrite (check_prereqs_missing ok rest missing name pak_id g Hok Hv Hm).
Qed.

(** The package [ext] requires [base], which nothing has registered. *)
Lemma missing_prerequisite_rejects_package_witness :
  let g' := print (prereq_line "base" "ext") (reset initial) in
  parse_package Sample.ext_zip Sample.ext_info "ext.zip" "ext" (VStr "ext")
                (reset initial) = (g', Ok 0)
  /\ obj g' = obj (reset initial)
  /\ obj_override g' = obj_override (reset initial).
Proof.
  exact (missing_prerequisite_rejects_package Sample.ext_zip Sample.ext_info
           "ext.zip" "ext" (VStr "ext") (reset initial)
           [] [] (PLeaf "Package" "base") "base"
           eq_refl (Forall_nil _) eq_refl eq_refl).
Defined.

(** What one round of the collector does to the globals. *)
Lemma collect_one_cases (zip : Zip) (pak_id : string) (dispName : Value)
      (c : comp_type) (object : Property) (g g' : Globals) (r : result unit) :
  collect_one zip pak_id dispName c object g = (g', r) ->
  g' = g
  \/ (exists line, g' = print line g)
  \/ (exists id, PyDict.mem id (obj g c) = true
                 /\ g' = set_override c (OvList [(zip, object)]) g)
  \/ (exists id o, override_mem id (obj_override g c) = true
                   /\ override_append (zip, object) (obj_override g c) = Ok o
                   /\ g' = set_override c o g)
  \/ (exists id, PyDict.mem id (obj g c) = false
                 /\ g' = set_obj c id (mkRawDef zip object pak_id dispName) g).
Proof.
  unfold collect_one.
  destruct (bind (getitem object "id") _) as [id|e]; [|intros [= <- _]; auto].
  destruct (PyDict.mem id (obj g c)) eqn:Em.
  - destruct (value_is _ _).
    + destruct (override_mem id (obj_override g c)) eqn:Eo.
      * destruct (override_append _ _) as [o|e] eqn:Ea; intros [= <- _]; auto.
        do 3 right. left. now exists id, o.
      * intros [= <- _]. right. right. left. now exists id.
    + intros [= <- _]. right. left. eauto.
  - intros [= <- _]. do 4 right. now exists id.
Qed.

Lemma collect_one_keeps (zip : Zip) (pak_id : string) (dispName : Value)
      (c : comp_type) (object : Property) (g g' : Globals) (r : result unit)
      (c0 : comp_type) (id0 : string) (rd : RawDef) :
  collect_one zip pak_id dispName c object g = (g', r) ->
  packages g' = packages g /\
  (PyDict.get id0 (obj g c0) = Some rd -> PyDict.get id0 (obj g' c0) = Some rd).
Proof.
  intros H. apply collect_one_cases in H.
  destruct H as [->|[[line ->]|[[id [_ ->]]|[[id [o [_ [_ ->]]]]|[id [Hm ->]]]]]];
    try (split; [reflexivity | auto]).
  cbn [obj set_obj]. intros Hg.
  destruct (comp_eqb c0 c) eqn:E.
  - apply comp_eqb_eq in E. subst c0. rewrite upd_same, get_set.
    destruct (String.eqb id0 id) eqn:Ei; [|exact Hg].
    apply String.eqb_eq in Ei. subst id0. apply mem_false in Hm. congruence.
  - rewrite upd_other; [exact Hg|]. intros ->.
    assert (comp_eqb c c = true) by now apply comp_eqb_eq. congruence.
Qed.

Lemma collect_keeps (zip : Zip) (pak_id : string) (dispName : Value)
      (defs : list (comp_type * Property)) (n : nat) (g g' : Globals)
      (r : result nat) (c0 : comp_type) (id0 : string) (rd : RawDef) :
  collect zip pak_id dispName defs n g = (g', r) ->
  packages g' = packages g /\
  (PyDict.get id0 (obj g c0) = Some rd -> PyDict.get id0 (obj g' c0) = Some rd).
Proof.
  revert n g. induction defs as [|[c object] rest IH]; intros n g H; cbn [collect] in H.
  - injection H as <- _. auto.
  - destruct (collect_one zip pak_id dispName c object g) as [g1 [u|e]] eqn:E;
      pose proof (collect_one_keeps _ _ _ _ _ _ _ _ c0 id0 rd E) as [Hp Hk].
    + destruct (IH _ _ H) as [Hp' Hk']. split; [congruence | auto].
    + injection H as <- _. auto.
Qed.

Lemma parse_package_keeps (zip : Zip) (info : list Property) (filename pak_id : string)
      (dispName : Value) (g g' : Globals) (r : result nat)
      (c0 : comp_type) (id0 : string) (rd : RawDef) :
  parse_package zip info filename pak_id dispName g = (g', r) ->
  packages g' = packages g /\
  (PyDict.get id0 (obj g c0) = Some rd -> PyDict.get id0 (obj g' c0) = Some rd).
Proof.
  unfold parse_package. intros H.
  destruct (iter_nodes _) as [pres|e]; [|injection H as <- _; auto].
  destruct (check_prereqs pres pak_id g) as [g1 [[|]|e]] eqn:E;
    destruct (check_prereqs_globals _ _ _ _ _ E) as [Hp [Ho _]];
    try (injection H as <- _; rewrite Ho; auto).
  destruct (collect_keeps _ _ _ _ _ _ _ _ c0 id0 rd H) as [Hp' Hk].
  split; [congruence|]. now rewrite Ho in Hk.
Qed.

(** X4. Through the whole collection loop of [loadAll], whatever the packages
    hold and whether or not the loop ends with an exception, a record once
    stored in [obj] is neither replaced nor removed: the first definition of
    an id in a category is the one that stays. *)
Theorem first_original_stays (paks : list Package) (n : nat) (g g' : Globals)
        (r : result nat) (c : comp_type) (id : string) (rd : RawDef) :
  scan_packages paks n g = (g', r) ->
  PyDict.get id (obj g c) = Some rd ->
  PyDict.get id (obj g' c) = Some rd.
Proof.
  revert n g. induction paks as [|p rest IH]; intros n g H Hg;
    cbn [scan_packages] in H.
  - now injection H as <- _.
  - destruct (parse_package _ _ _ _ _ _) as [g1 [m|e]] eqn:E;
      apply (parse_package_keeps _ _ _ _ _ _ _ _ c id rd) in E;
      destruct E as [_ Hk]; specialize (Hk Hg).
    + apply (IH _ _ H). exact Hk.
    + now injection H as <- _.
Qed.

(** Style [A] is collected; a package that defines [A] again is scanned. *)
Lemma first_original_stays_witness :
  PyDict.get "A"
    (obj (fst (scan_packages
                 [mkPackage "good" Sample.good_zip
                            [PLeaf "ID" "good"; Sample.style_A_again]
                            "good.zip" (VStr "good")]
                 0 Sample.collected_A)) CStyle)
  = Some (mkRawDef Sample.over_zip Sample.style_A "base" (VStr "base")).
Proof.
  exact (first_original_stays _ 0 Sample.collected_A _ _ CStyle "A" _
           (surjective_pairing _) eq_refl).
Defined.

Lemma collect_count (zip : Zip) (pak_id : string) (dispName : Value)
      (defs : list (comp_type * Property)) (n m : nat) (g g' : Globals) :
  collect zip pak_id dispName defs n g = (g', Ok m) ->
  m = n + length defs.
Proof.
  revert n g. induction defs as [|[c object] rest IH]; intros n g H;
    cbn [collect] in H.
  - injection H as _ <-. simpl. lia.
  - destruct (collect_one zip pak_id dispName c object g) as [g1 [u|e]];
      [|discriminate].
    apply IH in H. simpl. lia.
Qed.

Lemma check_prereqs_false (pres : list Property) (pak_id : string)
      (g g' : Globals) :
  check_prereqs pres pak_id g = (g', Ok false) -> exists line, g' = print line g.
Proof.
  revert g. induction pres as [|pre rest IH]; intros g H; simpl in H;
    [discriminate|].
  destruct (as_str (prop_value pre)) as [name|e]; [|discriminate].
  destruct (PyDict.mem name (packages g)); [now apply IH|].
  injection H as <-. eauto.
Qed.

Lemma check_prereqs_true (pres : list Property) (pak_id : string)
      (g g' : Globals) :
  check_prereqs pres pak_id g = (g', Ok true) -> g' = g.
Proof.
  revert g. induction pres as [|pre rest IH]; intros g H; simpl in H;
    [now injection H|].
  destruct (as_str (prop_value pre)) as [name|e]; [|discriminate].
  destruct (PyDict.mem name (packages g)); [now apply IH | discriminate].
Qed.

(** X5. The number [parse_package] returns is the number of definition nodes
    the manifest holds over the seven categories, unless the package was
    turned down for a prerequisite: then it is 0, a line was written and
    [obj] is as it was. *)
Theorem parse_package_count (zip : Zip) (info : list Property)
        (filename pak_id : string) (dispName : Value) (g g' : Globals) (m : nat) :
  parse_package zip info filename pak_id dispName g = (g', Ok m) ->
  m = length (definitions info)
  \/ (m = 0 /\ exists line, g' = print line g).
Proof.
  unfold parse_package. intros H.
  destruct (iter_nodes _) as [pres|e]; [|discriminate].
  destruct (check_prereqs pres pak_id g) as [g1 [[|]|e]] eqn:E; try discriminate.
  - left. now apply collect_count in H.
  - right. injection H as <- <-. split; [reflexivity|].
    now apply check_prereqs_false in E.
Qed.

(** The package of the sample with one style and two overrides of it. *)
Lemma parse_package_count_witness :
  3 = length (definitions Sample.over_info)
  \/ (3 = 0 /\ exists line,
         fst (parse_package Sample.over_zip Sample.over_info "base.zip" "base"
                            (VStr "base") (reset initial))
         = print line (reset initial)).
Proof.
  apply (parse_package_count Sample.over_zip Sample.over_info "base.zip" "base"
           (VStr "base") (reset initial)).
  reflexivity.
Defined.

(** ** What is left of the overrides *)

Lemma set_nonempty {V} (k : string) (v : V) (d : PyDict.t V) : PyDict.set k v d <> [].
Proof. destruct d as [|[k' v'] d]; simpl; [|destruct (String.eqb k k')]; discriminate. Qed.

Lemma mem_nonempty {V} (k : string) (d : PyDict.t V) :
  PyDict.mem k d = true -> d <> [].
Proof. destruct d; [discriminate | discriminate]. Qed.

Lemma collect_one_shape (zip : Zip) (pak_id : string) (dispName : Value)
      (c : comp_type) (object : Property) (g g' : Globals) (r : result unit) :
  collect_one zip pak_id dispName c object g = (g', r) ->
  (forall c0, store_shape g c0) -> forall c0, store_shape g' c0.
Proof.
  intros H Hg c0. apply collect_one_cases in H.
  destruct H as [->|[[line ->]|[[id [Hm ->]]|[[id [o [Hm [_ ->]]]]|[id [Hm ->]]]]]];
    try apply Hg.
  - unfold store_shape. cbn [obj obj_override set_override].
    destruct (comp_eqb c0 c) eqn:E.
    + apply comp_eqb_eq in E. subst c0. rewrite upd_same. right.
      split; [eauto | now apply (mem_nonempty id)].
    + rewrite upd_other; [apply Hg|]. intros ->.
      assert (comp_eqb c c = true) by now apply comp_eqb_eq. congruence.
  - exfalso. destruct (Hg c) as [Hd|[[x Hl] _]]; rewrite ?Hd, ?Hl in Hm; discriminate.
  - unfold store_shape. cbn [obj obj_override set_obj].
    destruct (Hg c0) as [Hd|[Hl Hne]]; [now left|]. right. split; [exact Hl|].
    destruct (comp_eqb c0 c) eqn:E.
    + apply comp_eqb_eq in E. subst c0. rewrite upd_same. apply set_nonempty.
    + rewrite upd_other; [exact Hne|]. intros ->.
      assert (comp_eqb c c = true) by now apply comp_eqb_eq. congruence.
Qed.

Lemma collect_shape (zip : Zip) (pak_id : string) (dispName : Value)
      (defs : list (comp_type * Property)) (n : nat) (g g' : Globals)
      (r : result nat) :
  collect zip pak_id dispName defs n g = (g', r) ->
  (forall c0, store_shape g c0) -> forall c0, store_shape g' c0.
Proof.
  revert n g. induction defs as [|[c object] rest IH]; intros n g H Hg;
    cbn [collect] in H.
  - now injection H as <- _.
  - destruct (collect_one zip pak_id dispName c object g) as [g1 [u|e]] eqn:E;
      pose proof (collect_one_shape _ _ _ _ _ _ _ _ E Hg) as H1.
    + now apply (IH _ _ H).
    + now injection H as <- _.
Qed.

Lemma store_shape_ext (g g' : Globals) :
  obj g' = obj g -> obj_override g' = obj_override g ->
  (forall c, store_shape g c) -> forall c, store_shape g' c.
Proof. intros Ho Hv H c. unfold store_shape. rewrite Ho, Hv. apply H. Qed.

Lemma parse_package_shape (zip : Zip) (info : list Property)
      (filename pak_id : string) (dispName : Value) (g g' : Globals)
      (r : result nat) :
  parse_package zip info filename pak_id dispName g = (g', r) ->
  (forall c0, store_shape g c0) -> forall c0, store_shape g' c0.
Proof.
  unfold parse_package. intros H Hg.
  destruct (iter_nodes _) as [pres|e]; [|now injection H as <- _].
  destruct (check_prereqs pres pak_id g) as [g1 [[|]|e]] eqn:E;
    destruct (check_prereqs_globals _ _ _ _ _ E) as [_ [Ho [Hv _]]];
    pose proof (store_shape_ext g g1 Ho Hv Hg) as H1;
    try (now injection H as <- _).
  now apply (collect_shape _ _ _ _ _ _ _ _ H).
Qed.

Lemma scan_packages_shape (paks : list Package) (n : nat) (g g' : Globals)
      (r : result nat) :
  scan_packages paks n g = (g', r) ->
  (forall c0, store_shape g c0) -> forall c0, store_shape g' c0.
Proof.
  revert n g. induction paks as [|p rest IH]; intros n g H Hg;
    cbn [scan_packages] in H.
  - now injection H as <- _.
  - assert (Hp : forall c0, store_shape
                              (print ("Scanning package '" ++ p_id p ++ "'")%string g)
                              c0)
      by (apply (store_shape_ext g); [reflexivity | reflexivity | exact Hg]).
    destruct (parse_package _ _ _ _ _ _) as [g1 [m|e]] eqn:E;
      pose proof (parse_package_shape _ _ _ _ _ _ _ _ E Hp) as H1.
    + apply (IH _ _ H). now apply (store_shape_ext g1).
    + now injection H as <- _.
Qed.

(** X6. However many overrides the packages declare, once the collection loop
    of [loadAll] is through, [obj_override] of a category is either the empty
    dictionary the reset put there or a list of a single pair, and in the
    second case the category has an original: no more than one override per
    category is ever kept. *)
Theorem one_override_per_category (paks : list Package) (g : Globals)
        (c : comp_type) :
  store_shape (fst (scan_packages paks 0 (reset g))) c.
Proof.
  apply (scan_packages_shape paks 0 (reset g) _
           (snd (scan_packages paks 0 (reset g))));
    [apply surjective_pairing|].
  intros c0. now left.
Qed.

Lemma load_one_globals (c : comp_type) (id : string) (rd : RawDef)
      (g g' : Globals) (r : result unit) :
  load_one c id rd g = (g', r) ->
  obj g' = obj g /\ obj_override g' = obj_override g.
Proof.
  unfold load_one. cbn [obj_override print].
  destruct (obj_override g c) as [d|l]; [|now intros [= <- _]].
  destruct (parse_cls c (r_zip rd) id (r_node rd)) as [lines [object|e]];
    [|now intros [= <- _]].
  destruct (match PyDict.get id d with Some _ => _ | None => _ end);
    now intros [= <- _].
Qed.

Lemma load_objs_globals (c : comp_type) (objs : list (string * RawDef))
      (g g' : Globals) (r : result unit) :
  load_objs c objs g = (g', r) ->
  obj g' = obj g /\ obj_override g' = obj_override g.
Proof.
  revert g. induction objs as [|[id rd] rest IH]; intros g H; cbn [load_objs] in H.
  - now injection H as <- _.
  - destruct (load_one c id rd g) as [g1 [u|e]] eqn:E;
      destruct (load_one_globals _ _ _ _ _ _ E) as [Ho Hv].
    + destruct (IH _ H) as [Ho' Hv']. split; congruence.
    + now injection H as <- _.
Qed.

Lemma load_objs_list (c : comp_type) (objs : list (string * RawDef))
      (g : Globals) (l : list (Zip * Property)) :
  obj_override g c = OvList l -> objs <> [] ->
  exists g', load_objs c objs g = (g', Raise AttributeError).
Proof.
  intros Hl Hne. destruct objs as [|[id rd] rest]; [contradiction|].
  cbn [load_objs]. unfold load_one. cbn [obj_override print]. rewrite Hl. eauto.
Qed.

Lemma load_types_raises (types : list comp_type) (c : comp_type) (g : Globals)
      (l : list (Zip * Property)) :
  In c types -> obj_override g c = OvList l -> obj g c <> [] ->
  exists g' e, load_types types g = (g', Raise e).
Proof.
  revert g. induction types as [|c0 rest IH]; intros g Hin Hl Hne; [destruct Hin|].
  cbn [load_types].
  destruct (load_objs c0 (PyDict.items (obj g c0)) g) as [g1 [u|e]] eqn:E; [|eauto].
  destruct (load_objs_globals _ _ _ _ _ E) as [Ho Hv].
  destruct Hin as [->|Hin].
  - destruct (load_objs_list c (PyDict.items (obj g c)) g l Hl Hne) as [g2 H2].
    congruence.
  - apply IH; [exact Hin | now rewrite Hv | now rewrite Ho].
Qed.

(** X7. A load in which the collector has taken up an override, so that
    [obj_override] of some category is no longer the empty dictionary when
    the collection is through, does not return: the parse loop raises. *)
Theorem load_with_override_raises
        (fuel : nat) (contents : list DirEntry) (g g1 g2 : Globals) (k : nat)
        (c : comp_type) :
  read_packages contents g = (g1, Ok tt) ->
  scan_packages (PyDict.values (packages g1)) 0 (reset g1) = (g2, Ok k) ->
  obj_override g2 c <> OvDict PyDict.empty ->
  exists g3 e, loadAll fuel contents g = (g3, Some (Raise e)).
Proof.
  intros Hread Hscan Hov.
  assert (Hs : store_shape g2 c).
  { apply (scan_packages_shape _ _ _ _ _ Hscan). intros c0. now left. }
  destruct Hs as [Hd|[[x Hl] Hne]]; [contradiction|].
  destruct (load_types_raises obj_types c g2 [x]) as [g3 [e He]]; auto.
  { destruct c; simpl; tauto. }
  exists g3, e. unfold loadAll. now rewrite Hread, Hscan, He.
Qed.

(** The sample package with two overrides of its style. *)
Lemma load_with_override_raises_witness :
  exists g3 e,
    loadAll 1 [Sample.entry Sample.over_zip] initial = (g3, Some (Raise e)).
Proof.
  apply (load_with_override_raises 1 [Sample.entry Sample.over_zip] initial
           (fst (read_packages [Sample.entry Sample.over_zip] initial))
           (fst (scan_packages
                   (PyDict.values
                      (packages (fst (read_packages [Sample.entry Sample.over_zip]
                                                    initial))))
                   0 (reset (fst (read_packages [Sample.entry Sample.over_zip]
                                                initial)))))
           3 CStyle); [reflexivity | reflexivity | discriminate].
Defined.

(** ** What the resolver leaves alone *)

Lemma fill_style_get (def : StyleVal) (m m' : PyDict.t StyleVal)
      (e : string * Obj Style) (x : string) :
  fill_style def m e = Ok m' ->
  (forall y, PyDict.get x m = Some y -> PyDict.get x m' = Some y) /\
  (PyDict.mem x m' = true -> PyDict.mem x m = true \/ x = fst e).
Proof.
  destruct e as [k s]. unfold fill_style. cbn [fst].
  destruct (PyDict.mem k m) eqn:Ek; [intros [= <-]; auto|].
  destruct (bases (body s)) as [c|]; [|discriminate].
  assert (H : forall v, (forall y, PyDict.get x m = Some y ->
                                   PyDict.get x (PyDict.set k v m) = Some y) /\
                        (PyDict.mem x (PyDict.set k v m) = true ->
                         PyDict.mem x m = true \/ x = k)).
  { intros v. split.
    - intros y Hy. rewrite get_set. destruct (String.eqb x k) eqn:E; [|exact Hy].
      apply String.eqb_eq in E. subst x. apply mem_false in Ek. congruence.
    - rewrite mem_set. destruct (String.eqb x k) eqn:E; [|now left].
      apply String.eqb_eq in E. now right. }
  destruct (first_present c m); intros [= <-]; apply H.
Qed.

Lemma fill_styles_get (def : StyleVal) (todo : list (string * Obj Style))
      (m m' : PyDict.t StyleVal) (x : string) :
  fill_styles def todo m = Ok m' ->
  (forall y, PyDict.get x m = Some y -> PyDict.get x m' = Some y) /\
  (PyDict.mem x m' = true -> PyDict.mem x m = true \/ In x (map fst todo)).
Proof.
  revert m. induction todo as [|e rest IH]; intros m H; cbn [fill_styles] in H.
  - injection H as <-. auto.
  - destruct (fill_style def m e) as [m1|] eqn:E; cbn [bind] in H; [|discriminate].
    destruct (fill_style_get _ _ _ _ x E) as [E1 E2].
    destruct (IH _ H) as [I1 I2]. split; [auto|].
    intros Hx. destruct (I2 Hx) as [Hm|Hin]; [|right; now right].
    destruct (E2 Hm) as [Hm' | ->]; [now left | right; now left].
Qed.

Lemma mapM_length {A B} (f : A -> result B) (l : list A) (l' : list B) :
  mapM f l = Ok l' -> length l' = length l.
Proof.
  revert l'. induction l as [|a r IH]; simpl; intros l' H.
  - now injection H as <-.
  - destruct (f a) as [b|]; [|discriminate]. simpl in H.
    destruct (mapM f r) as [r'|]; [|discriminate]. injection H as <-.
    simpl. now rewrite (IH r').
Qed.

Lemma write_back_ids (l : list (Obj Style)) (linked : PyDict.t (Obj Style)) :
  keyed_by_id linked ->
  map style_id (write_back l linked) = map style_id l.
Proof.
  intros Hkey. induction l as [|s r IH]; [reflexivity|].
  cbn [write_back map]. rewrite IH. f_equal.
  destruct (existsb _ r); [reflexivity|].
  destruct (PyDict.get (style_id s) linked) as [s'|] eqn:E; [|reflexivity].
  now apply Hkey.
Qed.

Lemma linked_keyed (fuel : nat) (l : list (Obj Style))
      (linked : PyDict.t (Obj Style)) :
  link_bases fuel (index_styles l) (index_styles l) = Some (Ok linked) ->
  keyed_by_id linked.
Proof.
  intros Hl k' s' Hg.
  destruct (linked_get_base _ _ _ _ _ Hl Hg) as [s [c [Hs [_ ->]]]].
  apply (index_styles_keyed l _ _ Hs).
Qed.

(** X8. [setup_style_tree] only adds: the five other categories are handed
    back as they were, the styles keep their ids and the items their number;
    every version keeps its name, flags and [def_style], every entry its
    [styles] mapping had keeps its value, and every key the mapping gained
    is the id of a style. *)
Theorem setup_style_tree_only_adds (fuel : nat) (d d' : Data) :
  setup_style_tree fuel d = Some (Ok d') ->
  (d_QuotePack d' = d_QuotePack d /\ d_Skybox d' = d_Skybox d
   /\ d_Goo d' = d_Goo d /\ d_Music d' = d_Music d
   /\ d_StyleVar d' = d_StyleVar d)
  /\ map style_id (d_Style d') = map style_id (d_Style d)
  /\ length (d_Item d') = length (d_Item d)
  /\ forall i it it',
      nth_error (d_Item d) i = Some it -> nth_error (d_Item d') i = Some it' ->
      i_id (body it') = i_id (body it) /\ def_data (body it') = def_data (body it)
      /\ pak_id it' = pak_id it /\ pak_name it' = pak_name it
      /\ length (versions (body it')) = length (versions (body it))
      /\ forall j v v',
          nth_error (versions (body it)) j = Some v ->
          nth_error (versions (body it')) j = Some v' ->
          v_name v' = v_name v /\ is_beta v' = is_beta v /\ is_dep v' = is_dep v
          /\ def_style v' = def_style v
          /\ (forall x y, PyDict.get x (styles v) = Some y ->
                          PyDict.get x (styles v') = Some y)
          /\ (forall x, PyDict.mem x (styles v') = true ->
                        PyDict.mem x (styles v) = true
                        \/ PyDict.mem x (index_styles (d_Style d)) = true).
Proof.
  intros H. destruct (setup_style_tree_ok _ _ _ H) as [linked [Hl [Hm Hw]]].
  split; [|split; [|split]].
  - unfold setup_style_tree in H. destruct (link_bases _ _ _) as [[x|e]|];
      try discriminate.
    destruct (mapM _ _) as [its|]; [|discriminate]. injection H as <-.
    repeat split.
  - rewrite Hw. apply write_back_ids. now apply (linked_keyed fuel (d_Style d)).
  - now apply mapM_length in Hm.
  - intros i it it' Hi Hi'.
    destruct (mapM_nth _ _ _ _ _ Hm Hi) as [it1 [Hit1 Hf]].
    assert (it1 = it') by congruence. subst it1. unfold fill_item in Hf.
    destruct (mapM (fill_version linked) (versions (body it))) as [vs|] eqn:Hvs;
      [|discriminate].
    injection Hf as <-. cbn.
    split; [reflexivity|]. split; [reflexivity|]. split; [reflexivity|].
    split; [reflexivity|]. split; [now apply mapM_length in Hvs|].
    intros j v v' Hj Hj'.
    destruct (mapM_nth _ _ _ _ _ Hvs Hj) as [v1 [Hv1 Hfv]].
    assert (v1 = v') by congruence. subst v1. unfold fill_version in Hfv.
    destruct (fill_styles _ _ _) as [m|] eqn:Hfs; [|discriminate].
    injection Hfv as <-. cbn.
    split; [reflexivity|]. split; [reflexivity|]. split; [reflexivity|].
    split; [reflexivity|]. split.
    + intros x y. now apply (fill_styles_get _ _ _ _ x Hfs).
    + intros x Hx. destruct (proj2 (fill_styles_get _ _ _ _ x Hfs) Hx) as [Hm'|Hin];
        [now left | right].
      apply mem_keys. rewrite <- (link_bases_keys _ _ _ _ Hl). exact Hin.
Qed.

Lemma setup_style_tree_only_adds_witness :
  exists d',
    setup_style_tree 3 Sample.tree = Some (Ok d')
    /\ map style_id (d_Style d') = map style_id (d_Style Sample.tree)
    /\ length (d_Item d') = length (d_Item Sample.tree).
Proof.
  pose (d' := match setup_style_tree 3 Sample.tree with
              | Some (Ok x) => x
              | _ => Sample.tree
              end).
  assert (H : setup_style_tree 3 Sample.tree = Some (Ok d'))
    by (vm_compute; reflexivity).
  exists d'. split; [exact H|].
  destruct (setup_style_tree_only_adds 3 Sample.tree d' H) as [_ [Hids [Hlen _]]].
  split; assumption.
Defined.

(** X9. After [setup_style_tree], the chain of every indexed style is its own
    id followed by the chain of its base; it is the id alone when the style
    has no base or names a base that is no style. *)
Theorem chain_is_id_then_base_chain (fuel : nat) (d d' : Data) :
  setup_style_tree fuel d = Some (Ok d') ->
  forall k s, PyDict.get k (index_styles (d_Style d')) = Some s ->
    exists c, bases (body s) = Some (k :: c) /\
      match base_style (body s) with
      | VStr a =>
          match PyDict.get a (index_styles (d_Style d')) with
          | Some sa => bases (body sa) = Some c
          | None => c = []
          end
      | _ => c = []
      end.
Proof.
  intros H k s Hs. destruct (setup_style_tree_ok _ _ _ H) as [linked [Hl [_ Hw]]].
  assert (Hidx : forall x, PyDict.get x (index_styles (d_Style d'))
                           = PyDict.get x linked).
  { intros x. rewrite Hw. now apply (index_write_back fuel). }
  rewrite Hidx in Hs.
  destruct (linked_chain _ _ _ _ _ (index_styles_keyed _) Hl Hs) as [c [Hc Hrest]].
  exists c. split; [exact Hc|].
  destruct (base_style (body s)) as [|a|x]; auto. now rewrite Hidx.
Qed.

(** Style [C] of the sample tree names a base that is no style. *)
Lemma chain_is_id_then_base_chain_witness :
  exists d' s,
    setup_style_tree 3 Sample.tree = Some (Ok d')
    /\ PyDict.get "C" (index_styles (d_Style d')) = Some s
    /\ bases (body s) = Some ["C"].
Proof.
  pose (d' := match setup_style_tree 3 Sample.tree with
              | Some (Ok x) => x
              | _ => Sample.tree
              end).
  pose (s := match PyDict.get "C" (index_styles (d_Style d')) with
             | Some x => x
             | None => Sample.style "C" VNone
             end).
  assert (H : setup_style_tree 3 Sample.tree = Some (Ok d'))
    by (vm_compute; reflexivity).
  assert (Hs : PyDict.get "C" (index_styles (d_Style d')) = Some s)
    by (vm_compute; reflexivity).
  exists d', s. split; [exact H|]. split; [exact Hs|].
  destruct (chain_is_id_then_base_chain 3 Sample.tree d' H "C" s Hs) as [c [Hc Hr]].
  vm_compute in Hr. now subst c.
Defined.

(** ** Cycles *)

Lemma index_styles_in (l : list (Obj Style)) (k : string) (s : Obj Style) :
  PyDict.get k (index_styles l) = Some s -> In s l.
Proof.
  rewrite get_index_styles. intros H. apply find_some in H.
  apply in_rev. tauto.
Qed.

Section Cycle.

Variable idx : PyDict.t (Obj Style).
Hypothesis keyed : keyed_by_id idx.
Hypothesis hashable :
  forall k s x, PyDict.get k idx = Some s -> base_style (body s) <> VList x.

Lemma cycle_step (k : string) (s : Obj Style) :
  clos_trans string (base_step idx) k k ->
  PyDict.get k idx = Some s ->
  exists s', get_base idx s = Ok (Some s')
             /\ PyDict.get (style_id s') idx = Some s'
             /\ clos_trans string (base_step idx) (style_id s') (style_id s').
Proof.
  intros Hc Hs. apply clos_trans_t1n in Hc.
  assert (Hnext : exists y, base_step idx k y
                            /\ clos_trans string (base_step idx) y y).
  { inversion Hc as [y Hstep|y z Hstep Hrest]; subst.
    - exists k. split; [exact Hstep | now apply t_step].
    - exists y. split; [exact Hstep|]. apply clos_t1n_trans in Hrest.
      apply t_trans with k; [exact Hrest | now apply t_step]. }
  destruct Hnext as [y [[s0 [Hs0 [Hb Hm]]] Hy]].
  assert (s0 = s) by congruence. subst s0.
  apply mem_true in Hm. destruct Hm as [s' Hs'].
  pose proof (keyed _ _ Hs') as Hid. subst y.
  exists s'. unfold get_base. rewrite Hb, Hs'. auto.
Qed.

Lemma cycle_never_leaves (fuel : nat) (s : Obj Style) (base : list string) :
  clos_trans string (base_step idx) (style_id s) (style_id s) ->
  PyDict.get (style_id s) idx = Some s ->
  base_loop fuel idx (Some s) base = None.
Proof.
  revert s base. induction fuel as [|f IH]; intros s base Hc Hs; [reflexivity|].
  destruct (cycle_step _ _ Hc Hs) as [s' [Hg [Hs' Hc']]].
  cbn [base_loop]. rewrite Hg. now apply IH.
Qed.

Lemma base_loop_no_raise (fuel : nat) (s : Obj Style) (base : list string)
      (e : exn) :
  (forall x, base_style (body s) <> VList x) ->
  base_loop fuel idx (Some s) base <> Some (Raise e).
Proof.
  revert s base. induction fuel as [|f IH]; intros s base Hs; [discriminate|].
  cbn [base_loop]. unfold get_base.
  destruct (base_style (body s)) as [|a|x] eqn:Eb.
  - destruct f; discriminate.
  - destruct (PyDict.get a idx) as [s'|] eqn:Ea; [|destruct f; discriminate].
    apply IH. intros x. now apply (hashable a).
  - now destruct (Hs x).
Qed.

Lemma link_bases_cycle (fuel : nat) (todo : list (string * Obj Style))
      (k : string) (s : Obj Style) :
  (forall e, In e todo -> PyDict.get (fst e) idx = Some (snd e)) ->
  In (k, s) todo ->
  clos_trans string (base_step idx) k k ->
  link_bases fuel idx todo = None.
Proof.
  intros Hall Hin Hc. induction todo as [|[k0 s0] rest IH]; [destruct Hin|].
  cbn [link_bases].
  pose proof (Hall (k0, s0) (or_introl eq_refl)) as H0. cbn in H0.
  destruct (base_loop fuel idx (Some s0) []) as [[c|e]|] eqn:E; [| |reflexivity].
  - destruct Hin as [Heq|Hin].
    + injection Heq as -> ->. pose proof (keyed _ _ H0) as Hid. subst k.
      rewrite (cycle_never_leaves fuel s [] Hc H0) in E. discriminate.
    + rewrite IH; auto. intros e He. apply Hall. now right.
  - exfalso. apply (base_loop_no_raise fuel s0 [] e); [|exact E].
    intros x. now apply (hashable k0).
Qed.

End Cycle.

(** X10. With no list among the [base_style] values, [setup_style_tree] never
    returns when some style reaches itself by following bases: the loop has
    nothing that stops it on a cycle, of whatever length and wherever in the
    index. *)
Theorem setup_style_tree_diverges_on_cycle (d : Data) (k : string) :
  hashable_bases (d_Style d) ->
  clos_trans string (base_step (index_styles (d_Style d))) k k ->
  diverges d.
Proof.
  intros Hh Hc fuel. unfold setup_style_tree, PyDict.items.
  assert (Hk : exists s, PyDict.get k (index_styles (d_Style d)) = Some s).
  { apply clos_trans_t1n in Hc.
    inversion Hc as [y [s [Hs _]]|y z [s [Hs _]] _]; eauto. }
  destruct Hk as [s Hs].
  rewrite (link_bases_cycle (index_styles (d_Style d)) (index_styles_keyed _)
             (fun k s x H => Hh s x (index_styles_in _ _ _ H))
             fuel (index_styles (d_Style d)) k s); auto.
  - intros [k' s'] Hin. apply in_get; [apply index_styles_nodup | exact Hin].
  - now apply get_in.
Qed.

Lemma sample_cycle_reaches_itself :
  clos_trans string (base_step (index_styles (d_Style Sample.cycle))) "A" "A".
Proof.
  apply t_trans with "B"; apply t_step.
  - exists (Sample.style "A" (VStr "B")). repeat split.
  - exists (Sample.style "B" (VStr "A")). repeat split.
Qed.

Lemma sample_cycle_hashable : hashable_bases (d_Style Sample.cycle).
Proof. intros s x [<-|[<-|[]]]; discriminate. Qed.

(** The two styles of the sample that are based on each other. *)
Lemma setup_style_tree_diverges_on_cycle_witness :
  hashable_bases (d_Style Sample.cycle)
  /\ clos_trans string (base_step (index_styles (d_Style Sample.cycle))) "A" "A"
  /\ diverges Sample.cycle.
Proof.
  split; [exact sample_cycle_hashable|].
  split; [exact sample_cycle_reaches_itself|].
  exact (setup_style_tree_diverges_on_cycle Sample.cycle "A"
           sample_cycle_hashable sample_cycle_reaches_itself).
Defined.

(** ** Styles that share an id *)

Lemma find_app_some {A} (p : A -> bool) (l l' : list A) (x : A) :
  find p l = Some x -> find p (l ++ l') = Some x.
Proof.
  induction l as [|a l IH]; simpl; [discriminate|]. now destruct (p a).
Qed.

Lemma existsb_find {A} (p : A -> bool) (l : list A) :
  existsb p l = true -> exists x, find p l = Some x.
Proof.
  induction l as [|a l IH]; simpl; [discriminate|].
  destruct (p a); [eauto | exact IH].
Qed.

Lemma write_back_nth (l1 l2 : list (Obj Style)) (s : Obj Style)
      (linked : PyDict.t (Obj Style)) :
  existsb (fun s' => String.eqb (style_id s') (style_id s)) l2 = true ->
  nth_error (write_back (l1 ++ s :: l2) linked) (length l1) = Some s.
Proof.
  intros H. induction l1 as [|a l1 IH]; cbn [app write_back length nth_error].
  - now rewrite H.
  - exact IH.
Qed.

(** X11. When several styles of [data['Style']] carry the same id, the index
    holds the last of them, and [setup_style_tree] hands every earlier one
    back untouched: it gets no chain. *)
Theorem shadowed_style_is_skipped (fuel : nat) (d d' : Data)
        (l1 l2 : list (Obj Style)) (s : Obj Style) :
  setup_style_tree fuel d = Some (Ok d') ->
  d_Style d = l1 ++ s :: l2 ->
  existsb (fun s' => String.eqb (style_id s') (style_id s)) l2 = true ->
  nth_error (d_Style d') (length l1) = Some s
  /\ exists s2, In s2 l2 /\ style_id s2 = style_id s
                /\ PyDict.get (style_id s) (index_styles (d_Style d)) = Some s2.
Proof.
  intros H Hd Hex. destruct (setup_style_tree_ok _ _ _ H) as [linked [_ [_ Hw]]].
  split.
  - rewrite Hw, Hd. now apply write_back_nth.
  - assert (Hrev : existsb (has_id (style_id s)) (rev l2) = true).
    { apply existsb_exists in Hex. destruct Hex as [x [Hx Hp]].
      apply existsb_exists. exists x. split; [now apply -> in_rev | exact Hp]. }
    destruct (existsb_find _ _ Hrev) as [s2 Hs2].
    exists s2. pose proof (find_some _ _ Hs2) as [Hin Hp].
    split; [now apply in_rev|]. split; [now apply String.eqb_eq|].
    rewrite get_index_styles, Hd, rev_app_distr. cbn [rev].
    rewrite <- app_assoc. now apply find_app_some.
Qed.

(** Two styles with the id [A]; the first has no base, the second has. *)
Lemma shadowed_style_is_skipped_witness :
  exists d',
    setup_style_tree 2 (mkData [Sample.style "A" VNone; Sample.style "A" (VStr "B")]
                               [] [] [] [] [] []) = Some (Ok d')
    /\ nth_error (d_Style d') 0 = Some (Sample.style "A" VNone).
Proof.
  pose (d := mkData [Sample.style "A" VNone; Sample.style "A" (VStr "B")]
                    [] [] [] [] [] []).
  pose (d' := match setup_style_tree 2 d with Some (Ok x) => x | _ => d end).
  assert (H : setup_style_tree 2 d = Some (Ok d')) by (vm_compute; reflexivity).
  exists d'. split; [exact H|].
  exact (proj1 (shadowed_style_is_skipped 2 d d' [] [Sample.style "A" (VStr "B")]
                  (Sample.style "A" VNone) H eq_refl eq_refl)).
Defined.

(** ** More on [Item.parse] *)

Lemma load_folders_get (zip : Zip) (names : list string)
      (folders : PyDict.t FolderData) (fold : string) (f : FolderData) :
  ItemC.load_folders zip names = Ok folders ->
  PyDict.get fold folders = Some f ->
  ItemC.load_folder zip fold = Ok f.
Proof.
  revert folders. induction names as [|n rest IH]; intros folders H Hg;
    cbn [ItemC.load_folders] in H.
  - injection H as <-. discriminate.
  - destruct (ItemC.load_folder zip n) as [f0|] eqn:E; cbn [bind] in H;
      [|discriminate].
    destruct (ItemC.load_folders zip rest) as [r'|]; cbn [bind] in H;
      [|discriminate].
    injection H as <-. cbn [PyDict.get] in Hg.
    destruct (String.eqb fold n) eqn:En.
    + apply String.eqb_eq in En. subst n. congruence.
    + now apply (IH r').
Qed.

Lemma rewrite_styles_get (folders : PyDict.t FolderData)
      (l sts : PyDict.t StyleVal) (k : string) :
  ItemC.rewrite_styles folders l = Ok sts ->
  match PyDict.get k l with
  | Some x => exists fold f, x = Raw (VStr fold)
                             /\ PyDict.get fold folders = Some f
                             /\ PyDict.get k sts = Some (Resolved f)
  | None => PyDict.get k sts = None
  end.
Proof.
  intros H. apply rewrite_styles_resolved in H.
  induction H as [|[k0 x0] [k1 x1] l l' [Hk [fold [f [Hx [Hf Hx']]]]] _ IH];
    [reflexivity|].
  cbn in Hk, Hx, Hx'. subst k1 x0 x1. cbn [PyDict.get].
  destruct (String.eqb k k0); [now exists fold, f | exact IH].
Qed.

(** X12. When [Item.parse] returns an item, the [styles] mapping of every
    version holds, for every style the manifest lists for that version and
    for no other key, the data loaded from the folder the manifest names
    for it: no folder name is left in a mapping. *)
Theorem item_styles_are_resolved (zip : Zip) (id : string) (info : Property)
        (it : Item) :
  ItemC.parse zip id info = Ok it ->
  exists scanned names,
    ItemC.scan_versions (find_all (children_of (prop_value info)) "version") [] []
    = Ok (scanned, names)
    /\ length (versions it) = length scanned
    /\ forall j v0 v,
        nth_error scanned j = Some v0 -> nth_error (versions it) j = Some v ->
        forall k,
          match PyDict.get k (styles v0) with
          | Some x => exists fold f, x = Raw (VStr fold)
                                     /\ ItemC.load_folder zip fold = Ok f
                                     /\ PyDict.get k (styles v) = Some (Resolved f)
          | None => PyDict.get k (styles v) = None
          end.
Proof.
  unfold ItemC.parse. intros H.
  destruct (ItemC.scan_versions _ _ _) as [[scanned names]|]; [|discriminate].
  cbn [bind] in H.
  destruct (ItemC.load_folders zip names) as [folders|] eqn:Ef; [|discriminate].
  cbn [bind] in H.
  destruct (mapM _ scanned) as [vs|] eqn:Em; [|discriminate]. cbn [bind] in H.
  assert (Hv : versions it = vs).
  { destruct vs; [discriminate|]. now injection H as <-. }
  exists scanned, names. split; [reflexivity|]. rewrite Hv.
  split; [now apply mapM_length in Em|].
  intros j v0 v Hj Hj' k.
  destruct (mapM_nth _ _ _ _ _ Em Hj) as [v1 [Hv1 Hr]].
  assert (v1 = v) by congruence. subst v1. unfold ItemC.rewrite_version in Hr.
  destruct (ItemC.in_folders _ _) as [known|]; [|discriminate]. cbn [bind] in Hr.
  destruct (if known then _ else _) as [def|]; [|discriminate]. cbn [bind] in Hr.
  destruct (ItemC.rewrite_styles folders _) as [sts|] eqn:Es; [|discriminate].
  injection Hr as <-. cbn [styles].
  pose proof (rewrite_styles_get _ _ _ k Es) as Hk. unfold PyDict.items in Hk.
  destruct (PyDict.get k (styles v0)) as [x|]; [|exact Hk].
  destruct Hk as [fold [f [Hx [Hf Hg]]]]. exists fold, f.
  repeat split; auto. now apply (load_folders_get zip names folders).
Qed.

(** The sample item with two versions on two folders. *)
Lemma item_styles_are_resolved_witness :
  exists it scanned names,
    ItemC.parse Sample.items_zip "widget" Sample.two_versions = Ok it
    /\ ItemC.scan_versions
         (find_all (children_of (prop_value Sample.two_versions)) "version") [] []
       = Ok (scanned, names)
    /\ length (versions it) = length scanned.
Proof.
  pose (it := match ItemC.parse Sample.items_zip "widget" Sample.two_versions with
              | Ok x => x
              | Raise _ => mkItem "widget" [] (Raw VNone)
              end).
  assert (H : ItemC.parse Sample.items_zip "widget" Sample.two_versions = Ok it)
    by (vm_compute; reflexivity).
  destruct (item_styles_are_resolved _ _ _ _ H) as [scanned [names [Hs [Hl _]]]].
  exists it, scanned, names. auto.
Defined.

Lemma load_folders_missing (zip : Zip) (ok rest : list string) (fold : string) :
  Forall (fun n => exists f, ItemC.load_folder zip n = Ok f) ok ->
  in_names ("items/" ++ fold ++ "/properties.txt")%string zip
  && in_names ("items/" ++ fold ++ "/editoritems.txt")%string zip = false ->
  ItemC.load_folders zip (ok ++ fold :: rest) = Raise IOError.
Proof.
  intros Hok Hm. induction Hok as [|n ok [f Hf] _ IH]; cbn [app ItemC.load_folders].
  - unfold ItemC.load_folder. now rewrite Hm.
  - rewrite Hf. cbn [bind]. now rewrite IH.
Qed.

(** X13. When the versions scan and a folder they name lacks its
    [properties.txt] or its [editoritems.txt] in the archive, the folders
    before it being sound, [Item.parse] raises [IOError]: no item is
    built on a folder that is incomplete. *)
Theorem item_folder_must_be_complete (zip : Zip) (id : string) (info : Property)
        (scanned : list Version) (ok rest : list string) (fold : string) :
  ItemC.scan_versions (find_all (children_of (prop_value info)) "version") [] []
  = Ok (scanned, ok ++ fold :: rest) ->
  Forall (fun n => exists f, ItemC.load_folder zip n = Ok f) ok ->
  in_names ("items/" ++ fold ++ "/properties.txt")%string zip
  && in_names ("items/" ++ fold ++ "/editoritems.txt")%string zip = false ->
  ItemC.parse zip id info = Raise IOError.
Proof.
  intros Hs Hok Hm. unfold ItemC.parse. rewrite Hs. cbn [bind].
  now rewrite (load_folders_missing zip ok rest fold Hok Hm).
Qed.

(** The sample item read from an archive without entries. *)
Lemma item_folder_must_be_complete_witness :
  ItemC.parse Sample.bare_zip "widget" Sample.two_versions = Raise IOError.
Proof.
  exact (item_folder_must_be_complete Sample.bare_zip "widget" Sample.two_versions
           _ [] ["f2"] "f1" eq_refl (Forall_nil _) eq_refl).
Defined.

(** ** Required fields *)

Lemma get_selitem_data_nameless (info : Property) (a : string) :
  find_first "name" (children_of (prop_value info)) = None ->
  getitem_def info "authors" (VStr EmptyString) = VStr a ->
  get_selitem_data info = Raise NoKeyError.
Proof.
  intros Hn Ha. unfold get_selitem_data. rewrite Ha. cbn [sep_values bind].
  unfold getitem, find_key. now rewrite Hn.
Qed.

(** X14. [name] is required in every category but [Item]: a definition
    without it, its [authors] being text or absent, makes the parser of the
    category raise, whatever the archive holds. *)
Theorem name_is_required (c : comp_type) (zip : Zip) (id : string)
        (info : Property) (a : string) :
  c <> CItem ->
  find_first "name" (children_of (prop_value info)) = None ->
  getitem_def info "authors" (VStr EmptyString) = VStr a ->
  snd (parse_cls c zip id info) = Raise NoKeyError.
Proof.
  intros Hc Hn Ha. pose proof (get_selitem_data_nameless info a Hn Ha) as Hs.
  destruct c; try contradiction; cbn [parse_cls quiet snd].
  - unfold StyleC.parse. now rewrite Hs.
  - unfold VoiceC.parse. now rewrite Hs.
  - unfold SkyboxC.parse. now rewrite Hs.
  - unfold GooC.parse. now rewrite Hs.
  - unfold MusicC.parse. now rewrite Hs.
  - unfold StyleVarC.parse, getitem, find_key. now rewrite Hn.
Qed.

Lemma name_is_required_witness :
  snd (parse_cls CGoo Sample.bare_zip "G" Sample.nameless) = Raise NoKeyError.
Proof.
  apply (name_is_required CGoo Sample.bare_zip "G" Sample.nameless EmptyString);
    [discriminate | reflexivity | reflexivity].
Defined.

(** ** Merging *)

(** X15. Two overrides merged one after the other into a goo, a music or a
    style variable leave the lists of the original followed by those of the
    first and then of the second override, and the id and name of the
    original: the merge never fails and never drops what was there. *)
Theorem add_over_twice :
  (forall (self o1 o2 : Goo) (z1 z2 : Zip),
      exists o, (x <- add_over_cls CGoo self o1 z1 ;; add_over_cls CGoo x o2 z2) = Ok o
                /\ g_config o = g_config self ++ g_config o1 ++ g_config o2
                /\ g_auth o = g_auth self ++ g_auth o1 ++ g_auth o2
                /\ g_id o = g_id self /\ g_name o = g_name self
                /\ g_material o = g_material self) /\
  (forall (self o1 o2 : Music) (z1 z2 : Zip),
      exists o, (x <- add_over_cls CMusic self o1 z1 ;; add_over_cls CMusic x o2 z2)
                = Ok o
                /\ m_config o = m_config self ++ m_config o1 ++ m_config o2
                /\ m_auth o = m_auth self ++ m_auth o1 ++ m_auth o2
                /\ m_id o = m_id self /\ m_name o = m_name self
                /\ m_inst o = m_inst self) /\
  (forall (self o1 o2 : StyleVar) (z1 z2 : Zip),
      exists o, (x <- add_over_cls CStyleVar self o1 z1 ;;
                 add_over_cls CStyleVar x o2 z2) = Ok o
                /\ sv_styles o = sv_styles self ++ sv_styles o1 ++ sv_styles o2
                /\ sv_id o = sv_id self /\ sv_name o = sv_name self
                /\ sv_default o = sv_default self).
Proof.
  repeat split; intros; eexists; (split; [reflexivity|]); cbn;
    rewrite <- ?app_assoc; repeat split.
Qed.

(** ** The skybox configuration *)

(** X16. When a skybox names a configuration and the archive does hold
    [skybox/<name>.cfg], [Skybox.parse] opens the entry called [<name>]
    instead: it raises [KeyError] when the archive has no such entry, and
    takes the configuration from that entry when it has. *)
Theorem skybox_opens_its_name (zip : Zip) (id : string) (info : Property)
        (sel : SelItem) (name : string) :
  get_selitem_data info = Ok sel ->
  sel_name sel = VStr name ->
  value_is (getitem_def info "config" (VStr EmptyString)) EmptyString = false ->
  in_names ("skybox/" ++ name ++ ".cfg")%string zip = true ->
  (PyDict.get name (z_entries zip) = None ->
   parse_cls CSkybox zip id info = ([], Raise KeyError))
  /\ (forall t, PyDict.get name (z_entries zip) = Some t ->
                exists o, parse_cls CSkybox zip id info = ([], Ok o)
                          /\ sk_config o = t).
Proof.
  intros Hsel Hname Hcfg Hin. cbn [parse_cls]. unfold SkyboxC.parse.
  rewrite Hsel, Hcfg, Hname, Hin. unfold open_parse. split.
  - intros ->. reflexivity.
  - intros t ->. eexists. split; reflexivity.
Qed.

(** The archive holds [skybox/sky.cfg] and no entry [sky]. *)
Lemma skybox_opens_its_name_witness :
  parse_cls CSkybox Sample.sky_zip "S" Sample.lone_sky = ([], Raise KeyError).
Proof.
  exact (proj1 (skybox_opens_its_name Sample.sky_zip "S" Sample.lone_sky _ "sky"
                  eq_refl eq_refl eq_refl eq_refl) eq_refl).
Defined.

(** ** The package registry *)

Lemma read_packages_app (c1 c2 : list DirEntry) (g g1 : Globals) :
  read_packages c1 g = (g1, Ok tt) ->
  read_packages (c1 ++ c2) g = read_packages c2 g1.
Proof.
  revert g. induction c1 as [|e r IH]; intros g H; cbn [read_packages app] in *.
  - now injection H as <-.
  - destruct (ends_with ".zip" (de_path e) && negb (de_is_dir e)); [|now apply IH].
    destruct (de_zip e) as [zip|]; [|discriminate].
    destruct (in_names "info.txt" zip); [|now apply IH].
    destruct (bind (open_parse zip "info.txt") _) as [p|x]; [|discriminate].
    now apply IH.
Qed.

Lemma read_packages_keeps (contents : list DirEntry) (g g' : Globals)
      (r : result unit) (k : string) :
  read_packages contents g = (g', r) ->
  PyDict.mem k (packages g) = true -> PyDict.mem k (packages g') = true.
Proof.
  revert g. induction contents as [|e rest IH]; intros g H Hk;
    cbn [read_packages] in H.
  - now injection H as <- _.
  - destruct (ends_with ".zip" (de_path e) && negb (de_is_dir e));
      [|now apply (IH _ H)].
    destruct (de_zip e) as [zip|]; [|now injection H as <- _].
    destruct (in_names "info.txt" zip); [|now apply (IH _ H)].
    destruct (bind (open_parse zip "info.txt") _) as [p|x];
      [|now injection H as <- _].
    apply (IH _ H). cbn [packages set_package print]. rewrite mem_set, Hk.
    apply orb_true_r.
Qed.

Lemma scan_packages_packages (paks : list Package) (n : nat) (g g' : Globals)
      (r : result nat) :
  scan_packages paks n g = (g', r) -> packages g' = packages g.
Proof.
  revert n g. induction paks as [|p rest IH]; intros n g H;
    cbn [scan_packages] in H.
  - now injection H as <- _.
  - destruct (parse_package _ _ _ _ _ _) as [g1 [m|e]] eqn:E;
      apply (parse_package_keeps _ _ _ _ _ _ _ _ CStyle EmptyString
               (mkRawDef (mkZip EmptyString []) (PLeaf EmptyString EmptyString)
                         EmptyString VNone)) in E;
      destruct E as [Hp _].
    + rewrite (IH _ _ H). exact Hp.
    + injection H as <- _. exact Hp.
Qed.

Lemma load_one_packages (c : comp_type) (id : string) (rd : RawDef)
      (g g' : Globals) (r : result unit) :
  load_one c id rd g = (g', r) -> packages g' = packages g.
Proof.
  unfold load_one. cbn [obj_override print].
  destruct (obj_override g c) as [d|l]; [|now intros [= <- _]].
  destruct (parse_cls c (r_zip rd) id (r_node rd)) as [lines [object|e]];
    [|now intros [= <- _]].
  destruct (match PyDict.get id d with Some _ => _ | None => _ end);
    now intros [= <- _].
Qed.

Lemma load_objs_packages (c : comp_type) (objs : list (string * RawDef))
      (g g' : Globals) (r : result unit) :
  load_objs c objs g = (g', r) -> packages g' = packages g.
Proof.
  revert g. induction objs as [|[id rd] rest IH]; intros g H; cbn [load_objs] in H.
  - now injection H as <- _.
  - destruct (load_one c id rd g) as [g1 [u|e]] eqn:E;
      apply load_one_packages in E.
    + rewrite (IH _ H). exact E.
    + now injection H as <- _.
Qed.

Lemma load_types_packages (types : list comp_type) (g g' : Globals)
      (r : result unit) :
  load_types types g = (g', r) -> packages g' = packages g.
Proof.
  revert g. induction types as [|c rest IH]; intros g H; cbn [load_types] in H.
  - now injection H as <- _.
  - destruct (load_objs c _ g) as [g1 [u|e]] eqn:E; apply load_objs_packages in E.
    + rewrite (IH _ H). exact E.
    + now injection H as <- _.
Qed.

(** X17. [loadAll] never takes a package out of [packages]: what an earlier
    call registered is still registered after a later call, whatever
    directory that call reads and however it ends. *)
Theorem registry_only_grows (fuel : nat) (contents : list DirEntry) (g : Globals)
        (k : string) :
  PyDict.mem k (packages g) = true ->
  PyDict.mem k (packages (fst (loadAll fuel contents g))) = true.
Proof.
  intros Hk. unfold loadAll.
  destruct (read_packages contents g) as [g1 [u|e]] eqn:Er;
    pose proof (read_packages_keeps _ _ _ _ k Er Hk) as H1; [|exact H1].
  destruct (scan_packages _ 0 (reset g1)) as [g2 [n|e]] eqn:Es;
    apply scan_packages_packages in Es; cbn [packages reset] in Es;
    [|cbn [fst]; now rewrite Es].
  destruct (load_types obj_types g2) as [g3 [u'|e]] eqn:El;
    apply load_types_packages in El; [|cbn [fst]; now rewrite El, Es].
  destruct (setup_style_tree fuel (data g3)) as [[d|e]|]; cbn [fst packages set_data];
    now rewrite El, Es.
Qed.

Lemma registry_only_grows_witness :
  PyDict.mem "base"
    (packages (fst (loadAll 1 []
                      (fst (read_packages [Sample.entry Sample.over_zip] initial)))))
  = true.
Proof.
  apply (registry_only_grows 1 []
           (fst (read_packages [Sample.entry Sample.over_zip] initial)) "base").
  reflexivity.
Defined.

(** X18. When two archives of the directory give the same package id, the
    later one takes the place of the earlier in [packages], without a word
    in the log about the clash. *)
Theorem last_archive_wins (contents : list DirEntry) (g g1 : Globals)
        (e : DirEntry) (zip : Zip) (info : list Property) (p : Property)
        (id : string) :
  read_packages contents g = (g1, Ok tt) ->
  ends_with ".zip" (de_path e) && negb (de_is_dir e) = true ->
  de_zip e = Some zip ->
  in_names "info.txt" zip = true ->
  open_parse zip "info.txt" = Ok info ->
  find_key info "ID" = Ok p ->
  prop_value p = VStr id ->
  let pak := mkPackage id zip info (de_path e) (find_key_def info "Name" (VStr id)) in
  let g' := fst (read_packages (contents ++ [e]) g) in
  snd (read_packages (contents ++ [e]) g) = Ok tt
  /\ PyDict.get id (packages g') = Some pak
  /\ log g' = log g1 ++ [("Reading package file '" ++ de_name e ++ "'")%string].
Proof.
  intros Hread Hzip Hz Hin Hinfo Hid Hv pak g'. subst g'.
  rewrite (read_packages_app _ [e] _ _ Hread). cbn [read_packages].
  rewrite Hzip, Hz, Hin, Hinfo. cbn [bind]. rewrite Hid. cbn [bind].
  rewrite Hv. cbn [bind as_str fst snd p_id packages set_package log print].
  repeat split. apply get_set_same.
Qed.

(** Two archives that both call themselves [base]. *)
Lemma last_archive_wins_witness :
  let g' := fst (read_packages [Sample.entry Sample.over_zip;
                                Sample.entry Sample.twin_zip] initial) in
  snd (read_packages [Sample.entry Sample.over_zip; Sample.entry Sample.twin_zip]
                     initial) = Ok tt
  /\ PyDict.get "base" (packages g')
     = Some (mkPackage "base" Sample.twin_zip Sample.twin_info "twin.zip"
                       (VStr "Twin"))
  /\ log g' = log (fst (read_packages [Sample.entry Sample.over_zip] initial))
              ++ ["Reading package file 'twin.zip'"].
Proof.
  exact (last_archive_wins [Sample.entry Sample.over_zip] initial
           (fst (read_packages [Sample.entry Sample.over_zip] initial))
           (Sample.entry Sample.twin_zip) Sample.twin_zip Sample.twin_info
           (PLeaf "ID" "base") "base"
           eq_refl eq_refl eq_refl eq_refl eq_refl eq_refl eq_refl).
Defined.

Lemma read_packages_source (contents : list DirEntry) (g g' : Globals)
      (r : result unit) (k : string) :
  read_packages contents g = (g', r) ->
  PyDict.mem k (packages g') = true ->
  PyDict.mem k (packages g) = true
  \/ exists e zip info p,
      In e contents /\ ends_with ".zip" (de_path e) = true /\ de_is_dir e = false
      /\ de_zip e = Some zip /\ open_parse zip "info.txt" = Ok info
      /\ find_key info "ID" = Ok p /\ prop_value p = VStr k.
Proof.
  revert g. induction contents as [|e rest IH]; intros g H Hk;
    cbn [read_packages] in H.
  - injection H as <- _. now left.
  - assert (Hrest : forall g0, packages g0 = packages g ->
                               read_packages rest g0 = (g', r) ->
                               PyDict.mem k (packages g) = true \/
                               exists e0 zip info p,
                                 In e0 (e :: rest)
                                 /\ ends_with ".zip" (de_path e0) = true
                                 /\ de_is_dir e0 = false /\ de_zip e0 = Some zip
                                 /\ open_parse zip "info.txt" = Ok info
                                 /\ find_key info "ID" = Ok p /\ prop_value p = VStr k).
    { intros g0 Hp H0. destruct (IH _ H0 Hk) as [Hm|[e0 [zip [info [p [Hin Hr]]]]]].
      - left. now rewrite <- Hp.
      - right. exists e0, zip, info, p. split; [now right | exact Hr]. }
    destruct (ends_with ".zip" (de_path e) && negb (de_is_dir e)) eqn:Ez;
      [|refine (Hrest _ _ H); reflexivity].
    apply andb_true_iff in Ez. destruct Ez as [Ez Ed].
    apply negb_true_iff in Ed.
    destruct (de_zip e) as [zip|] eqn:Ezip; [|injection H as <- _; now left].
    destruct (in_names "info.txt" zip); [|refine (Hrest _ _ H); reflexivity].
    destruct (open_parse zip "info.txt") as [info|x] eqn:Ei; cbn [bind] in H;
      [|injection H as <- _; now left].
    destruct (find_key info "ID") as [p|x] eqn:Ep; cbn [bind] in H;
      [|injection H as <- _; now left].
    destruct (as_str (prop_value p)) as [id|x] eqn:Ea; cbn [bind] in H;
      [|injection H as <- _; now left].
    cbn [p_id] in H.
    destruct (IH _ H Hk) as [Hm|[e0 [zip0 [info0 [p0 [Hin Hr]]]]]].
    + cbn [packages set_package print] in Hm. rewrite mem_set in Hm.
      destruct (String.eqb k id) eqn:Ek; [|now left].
      apply String.eqb_eq in Ek. subst id. right. exists e, zip, info, p.
      repeat split; auto; [now left|].
      destruct (prop_value p); try discriminate. now injection Ea as ->.
    + right. exists e0, zip0, info0, p0. split; [now right | exact Hr].
Qed.

(** X19. The first loop of [loadAll] registers a package id only for an
    entry of the directory that is no directory, is called [*.zip], opens as
    an archive and holds an [info.txt] whose [ID] is that id: every other
    entry leaves [packages] as it was. *)
Theorem registered_ids_come_from_archives (contents : list DirEntry) (g : Globals)
        (k : string) :
  PyDict.mem k (packages (fst (read_packages contents g))) = true ->
  PyDict.mem k (packages g) = true
  \/ exists e zip info p,
      In e contents /\ ends_with ".zip" (de_path e) = true /\ de_is_dir e = false
      /\ de_zip e = Some zip /\ open_parse zip "info.txt" = Ok info
      /\ find_key info "ID" = Ok p /\ prop_value p = VStr k.
Proof.
  apply (read_packages_source contents g _ (snd (read_packages contents g))).
  apply surjective_pairing.
Qed.

Lemma registered_ids_come_from_archives_witness :
  PyDict.mem "base" (packages initial) = true
  \/ exists e zip info p,
      In e [Sample.entry Sample.over_zip]
      /\ ends_with ".zip" (de_path e) = true /\ de_is_dir e = false
      /\ de_zip e = Some zip /\ open_parse zip "info.txt" = Ok info
      /\ find_key info "ID" = Ok p /\ prop_value p = VStr "base".
Proof.
  apply (registered_ids_come_from_archives [Sample.entry Sample.over_zip] initial).
  reflexivity.
Defined.

(** ** The parse loop *)

Lemma data_get_append_same (c : comp_type) (o : Obj (cls c)) (d : Data) :
  data_get c (data_append c o d) = data_get c d ++ [o].
Proof. destruct c; reflexivity. Qed.

Lemma data_get_append_other (c c' : comp_type) (o : Obj (cls c)) (d : Data) :
  c' <> c -> data_get c' (data_append c o d) = data_get c' d.
Proof. intros H. destruct c, c'; try reflexivity; contradiction. Qed.

Lemma load_one_data (c : comp_type) (id : string) (rd : RawDef) (g g' : Globals) :
  load_one c id rd g = (g', Ok tt) ->
  exists o, data g' = data_append c (mkObj o (Some (r_pak_id rd))
                                           (Some (r_dispName rd))) (data g).
Proof.
  unfold load_one. cbn [obj_override print].
  destruct (obj_override g c) as [d|l]; [|discriminate].
  destruct (parse_cls c (r_zip rd) id (r_node rd)) as [lines [object|e]];
    [|discriminate].
  destruct (match PyDict.get id d with Some _ => _ | None => _ end) as [o|e];
    [|discriminate].
  intros [= <-]. now exists o.
Qed.

(** X20. When the parse loop gets through the originals of a category, the
    list [data] holds for the category has grown by one object per original,
    in the order of [obj], each carrying the id and the display name of the
    package that defined it; the lists of the other categories are as they
    were. *)
Theorem load_objs_appends (c : comp_type) (objs : list (string * RawDef))
        (g g' : Globals) :
  load_objs c objs g = (g', Ok tt) ->
  exists news,
    data_get c (data g') = data_get c (data g) ++ news
    /\ map pak_id news = map (fun e => Some (r_pak_id (snd e))) objs
    /\ map pak_name news = map (fun e => Some (r_dispName (snd e))) objs
    /\ forall c', c' <> c -> data_get c' (data g') = data_get c' (data g).
Proof.
  revert g. induction objs as [|[id rd] rest IH]; intros g H; cbn [load_objs] in H.
  - injection H as <-. exists []. rewrite app_nil_r. auto.
  - destruct (load_one c id rd g) as [g1 [[]|e]] eqn:E; [|discriminate].
    destruct (load_one_data _ _ _ _ _ E) as [o Ho].
    destruct (IH _ H) as [news [Hd [Hp [Hn Hc]]]].
    exists (mkObj o (Some (r_pak_id rd)) (Some (r_dispName rd)) :: news).
    rewrite Hd, Ho, data_get_append_same, <- app_assoc. cbn [map snd pak_id pak_name].
    rewrite Hp, Hn. repeat split.
    intros c' Hne. rewrite (Hc c' Hne), Ho. now apply data_get_append_other.
Qed.

(** Two style variables of two packages. *)
Lemma load_objs_appends_witness :
  exists news,
    data_get CStyleVar
             (data (fst (load_objs CStyleVar Sample.var_defs (reset initial))))
    = data_get CStyleVar (data (reset initial)) ++ news
    /\ map pak_id news = [Some "base"; Some "ext"]
    /\ map pak_name news = [Some (VStr "Base"); Some (VStr "Extension")].
Proof.
  destruct (load_objs_appends CStyleVar Sample.var_defs (reset initial)
              (fst (load_objs CStyleVar Sample.var_defs (reset initial))) eq_refl)
    as [news [Hd [Hp [Hn _]]]].
  exists news. auto.
Defined.

(** ** Parsed styles *)

Lemma append_nil_r (s : string) : (s ++ "")%string = s.
Proof. induction s; simpl; congruence. Qed.

Lemma append_assoc' (a b c : string) : ((a ++ b) ++ c = a ++ b ++ c)%string.
Proof. induction a; simpl; congruence. Qed.

Lemma optional_entry (zip : Zip) (path : string) :
  exists vbsp,
    (if in_names path zip
     then bind (open_parse zip path) (fun c => Ok (Some c))
     else Ok None) = Ok vbsp
    /\ match vbsp with Some c => c | None => [] end
       = match PyDict.get path (z_entries zip) with
         | Some t => t
         | None => []
         end.
Proof.
  destruct (in_names path zip) eqn:En.
  - unfold open_parse. destruct (PyDict.get path (z_entries zip)) as [t|] eqn:Eg.
    + exists (Some t). auto.
    + exfalso. unfold in_names, namelist in En. apply existsb_exists in En.
      destruct En as [x [Hx Hp]]. apply String.eqb_eq in Hp. subst x.
      apply mem_keys, mem_true in Hx. destruct Hx as [v Hv]. congruence.
  - exists None. split; [reflexivity|].
    apply open_parse_absent in En. unfold open_parse in En.
    now destruct (PyDict.get path (z_entries zip)).
Qed.

(** X21. A style [Style.parse] returns has the id it was asked for and no
    chain yet; its editor tree is the [items.txt] of the folder the
    definition names; its configuration wraps the folder's
    [vbsp_config.cfg] when the archive has one and is empty otherwise; its
    base is never the text [NONE], which stands for no base, and its short
    name is empty only when its name is. *)
Theorem parsed_style (zip : Zip) (id : string) (info : Property) (s : Style) :
  StyleC.parse zip id info = Ok s ->
  s_id s = id /\ bases s = None
  /\ base_style s <> VStr "NONE"
  /\ (s_short_name s = VStr EmptyString -> s_name s = VStr EmptyString)
  /\ exists fold,
      getitem info "folder" = Ok (VStr fold)
      /\ open_parse zip ("styles/" ++ fold ++ "/items.txt")%string = Ok (s_editor s)
      /\ s_config s
         = PBlock "ItemData"
             (match PyDict.get ("styles/" ++ fold ++ "/vbsp_config.cfg")%string
                               (z_entries zip) with
              | Some t => t
              | None => []
              end).
Proof.
  unfold StyleC.parse. intros H.
  destruct (get_selitem_data info) as [sel|]; cbn [bind] in H; [|discriminate].
  destruct (getitem info "folder") as [[|fold|l]|]; cbn [bind concat_val as_str] in H;
    try discriminate.
  rewrite append_nil_r in H.
  destruct (open_parse zip (("styles/" ++ fold) ++ "/items.txt")%string) as [items|]
    eqn:Ei; cbn [bind] in H; [|discriminate].
  destruct (optional_entry zip (("styles/" ++ fold) ++ "/vbsp_config.cfg")%string)
    as [vbsp [Hv1 Hv2]].
  rewrite Hv1 in H. cbn [bind] in H. injection H as <-.
  rewrite !append_assoc' in *. unfold StyleC.init. cbn.
  split; [reflexivity|]. split; [reflexivity|]. split; [|split].
  - destruct (getitem_def info "base" (VStr "NONE")) as [|b|l] eqn:Eb;
      cbn [value_is]; try discriminate.
    destruct (String.eqb b "NONE") eqn:E; [discriminate|].
    intros [= ->]. discriminate.
  - destruct (sel_short_name sel) as [|sn|l]; cbn [value_is short_or_name];
      try discriminate; auto.
    destruct (String.eqb sn "") eqn:E; cbn [short_or_name]; auto.
    intros [= ->]. discriminate.
  - exists fold. repeat split; auto. now rewrite Hv2.
Qed.

(** The sample style, whose folder holds [items.txt] only. *)
Lemma parsed_style_witness :
  exists s,
    StyleC.parse Sample.style_zip "A" Sample.style_A = Ok s
    /\ s_id s = "A" /\ bases s = None /\ base_style s <> VStr "NONE"
    /\ s_config s = PBlock "ItemData" [].
Proof.
  pose (s := match StyleC.parse Sample.style_zip "A" Sample.style_A with
             | Ok x => x
             | Raise _ => body (Sample.style "A" VNone)
             end).
  assert (H : StyleC.parse Sample.style_zip "A" Sample.style_A = Ok s)
    by (vm_compute; reflexivity).
  destruct (parsed_style _ _ _ _ H) as [Hid [Hb [Hn [_ [fold [_ [_ Hc]]]]]]].
  exists s. repeat split; auto.
Defined.

(** ** Running the resolver again *)

Lemma mem_same_keys {V W} (k : string) (d : PyDict.t V) (d' : PyDict.t W) :
  PyDict.keys d = PyDict.keys d' -> PyDict.mem k d = PyDict.mem k d'.
Proof.
  intros H. destruct (PyDict.mem k d) eqn:E.
  - symmetry. apply mem_keys. rewrite <- H. now apply mem_keys.
  - destruct (PyDict.mem k d') eqn:E'; [|reflexivity].
    apply mem_keys in E'. rewrite <- H in E'. apply mem_keys in E'. congruence.
Qed.

Lemma fold_set_keys (l l' : list (Obj Style)) (d d' : PyDict.t (Obj Style)) :
  map style_id l = map style_id l' ->
  PyDict.keys d = PyDict.keys d' ->
  PyDict.keys (fold_left (fun d s => PyDict.set (style_id s) s d) l d)
  = PyDict.keys (fold_left (fun d s => PyDict.set (style_id s) s d) l' d').
Proof.
  revert l' d d'. induction l as [|s l IH]; intros [|s' l'] d d' Hl Hd;
    try discriminate; [exact Hd|].
  injection Hl as Hs Hl. cbn [fold_left]. apply IH; [exact Hl|].
  rewrite !keys_set, <- Hs, (mem_same_keys _ d d' Hd), Hd. reflexivity.
Qed.

Lemma dict_ext {V} (a b : PyDict.t V) :
  NoDup (PyDict.keys a) -> PyDict.keys a = PyDict.keys b ->
  (forall k, PyDict.get k a = PyDict.get k b) -> a = b.
Proof.
  revert b. induction a as [|[k v] a IH]; intros [|[k' v'] b] Hnd Hk Hg;
    try discriminate; [reflexivity|].
  cbn in Hk. injection Hk as <- Hk. inversion Hnd as [|? ? Hni Hnd']; subst.
  pose proof (Hg k) as Hgk. cbn in Hgk. rewrite String.eqb_refl in Hgk.
  injection Hgk as <-. f_equal. apply IH; auto.
  intros x. specialize (Hg x). cbn in Hg.
  destruct (String.eqb x k) eqn:E; [|exact Hg].
  apply String.eqb_eq in E. subst x.
  assert (Ha : PyDict.get k a = None).
  { apply mem_false. destruct (PyDict.mem k a) eqn:Em; [|reflexivity].
    apply mem_keys in Em. unfold PyDict.keys in *. contradiction. }
  assert (Hb : PyDict.get k b = None).
  { apply mem_false. destruct (PyDict.mem k b) eqn:Em; [|reflexivity].
    apply mem_keys in Em. unfold PyDict.keys in *. rewrite <- Hk in Em.
    contradiction. }
  congruence.
Qed.

Lemma index_of_write_back (fuel : nat) (l : list (Obj Style))
      (linked : PyDict.t (Obj Style)) :
  link_bases fuel (index_styles l) (index_styles l) = Some (Ok linked) ->
  index_styles (write_back l linked) = linked.
Proof.
  intros Hl. apply dict_ext.
  - apply index_styles_nodup.
  - rewrite (link_bases_keys _ _ _ _ Hl). unfold index_styles.
    apply fold_set_keys; [|reflexivity].
    apply write_back_ids. now apply (linked_keyed fuel l).
  - intros k. now apply (index_write_back fuel).
Qed.

Lemma set_bases_same (s : Obj Style) (c : list string) :
  bases (body s) = Some c -> with_body s (set_bases (body s) c) = s.
Proof.
  destruct s as [[] ? ?]. cbn. intros ->. reflexivity.
Qed.

Section Again.

Variable fuel : nat.
Variable idx linked : PyDict.t (Obj Style).
Hypothesis Hl : link_bases fuel idx idx = Some (Ok linked).

Lemma linked_lookup (k : string) :
  match PyDict.get k idx with
  | Some s => exists s1, PyDict.get k linked = Some s1
                         /\ style_id s1 = style_id s
                         /\ base_style (body s1) = base_style (body s)
  | None => PyDict.get k linked = None
  end.
Proof.
  pose proof (link_bases_get _ _ _ _ k Hl) as H.
  destruct (PyDict.get k idx) as [s|]; [|exact H].
  destruct H as [c [_ H]]. eexists. split; [exact H|]. split; reflexivity.
Qed.

Lemma base_loop_linked (n : nat) (b b1 : Obj Style) (base : list string) :
  style_id b1 = style_id b ->
  base_style (body b1) = base_style (body b) ->
  base_loop n linked (Some b1) base = base_loop n idx (Some b) base.
Proof.
  revert b b1 base. induction n as [|n IH]; intros b b1 base Hid Hb; [reflexivity|].
  cbn [base_loop]. unfold get_base. rewrite Hb, Hid.
  destruct (base_style (body b)) as [|a|x]; [destruct n; reflexivity| |reflexivity].
  pose proof (linked_lookup a) as Ha.
  destruct (PyDict.get a idx) as [s|].
  - destruct Ha as [s1 [-> [Hid1 Hb1]]]. now apply IH.
  - rewrite Ha. destruct n; reflexivity.
Qed.

Lemma link_bases_again (todo : list (string * Obj Style)) :
  (forall e, In e todo -> PyDict.get (fst e) linked = Some (snd e)) ->
  link_bases fuel linked todo = Some (Ok todo).
Proof.
  induction todo as [|[k s1] rest IH]; intros Hin; [reflexivity|].
  cbn [link_bases].
  pose proof (Hin (k, s1) (or_introl eq_refl)) as Hs1. cbn in Hs1.
  destruct (linked_get_base _ _ _ _ _ Hl Hs1) as [s [c [Hs [Hc ->]]]].
  rewrite (base_loop_linked fuel s (with_body s (set_bases (body s) c)) []
             eq_refl eq_refl), Hc.
  rewrite IH by (intros e He; apply Hin; now right).
  now rewrite set_bases_same.
Qed.

End Again.

Lemma fill_styles_full (def : StyleVal) (todo : list (string * Obj Style))
      (m : PyDict.t StyleVal) :
  (forall e, In e todo -> PyDict.mem (fst e) m = true) ->
  fill_styles def todo m = Ok m.
Proof.
  induction todo as [|[k s] rest IH]; intros H; [reflexivity|].
  pose proof (H (k, s) (or_introl eq_refl)) as Hk. cbn [fst] in Hk.
  cbn [fill_styles fill_style]. rewrite Hk. cbn [bind].
  apply IH. intros e He. apply H. now right.
Qed.

Lemma mapM_id {A} (f : A -> result A) (l : list A) :
  (forall a, In a l -> f a = Ok a) -> mapM f l = Ok l.
Proof.
  induction l as [|a r IH]; intros H; [reflexivity|].
  cbn [mapM]. rewrite (H a (or_introl eq_refl)). cbn [bind].
  rewrite IH by (intros x Hx; apply H; now right). reflexivity.
Qed.

Lemma existsb_ids (k : string) (l l' : list (Obj Style)) :
  map style_id l = map style_id l' ->
  existsb (fun s' => String.eqb (style_id s') k) l
  = existsb (fun s' => String.eqb (style_id s') k) l'.
Proof.
  revert l'. induction l as [|s l IH]; intros [|s' l'] H; try discriminate;
    [reflexivity|].
  injection H as Hs Hr. cbn [existsb]. now rewrite Hs, (IH l').
Qed.

Lemma write_back_again (l : list (Obj Style)) (linked : PyDict.t (Obj Style)) :
  keyed_by_id linked ->
  write_back (write_back l linked) linked = write_back l linked.
Proof.
  intros Hkey. induction l as [|s r IH]; [reflexivity|].
  cbn [write_back]. rewrite IH. f_equal.
  set (x := if existsb _ r then s else _).
  assert (Hid : style_id x = style_id s).
  { subst x. destruct (existsb _ r); [reflexivity|].
    destruct (PyDict.get (style_id s) linked) as [s'|] eqn:Es; [|reflexivity].
    now apply Hkey. }
  rewrite Hid, (existsb_ids (style_id s) (write_back r linked) r)
    by now apply write_back_ids.
  subst x. destruct (existsb _ r); [reflexivity|].
  destruct (PyDict.get (style_id s) linked) as [s'|] eqn:Es; [reflexivity|].
  reflexivity.
Qed.

(** X22. Running [setup_style_tree] on what it returned changes nothing:
    the chains come out the same and no version has a style left to fill. *)
Theorem setup_style_tree_idempotent (fuel : nat) (d d' : Data) :
  setup_style_tree fuel d = Some (Ok d') ->
  setup_style_tree fuel d' = Some (Ok d').
Proof.
  intros H. destruct (setup_style_tree_ok _ _ _ H) as [linked [Hl [Hm Hw]]].
  pose proof (index_of_write_back _ _ _ Hl) as Hidx. rewrite <- Hw in Hidx.
  pose proof (linked_keyed _ _ _ Hl) as Hkey.
  unfold setup_style_tree, PyDict.items. rewrite Hidx.
  rewrite (link_bases_again fuel _ linked Hl linked)
    by (intros [k s] Hin; apply in_get; [now apply (linked_nodup fuel (d_Style d)) | exact Hin]).
  assert (Hfill : mapM (fill_item linked) (d_Item d') = Ok (d_Item d')).
  { apply mapM_id. intros it' Hit'.
    destruct (mapM_in _ _ _ _ Hm Hit') as [it [_ Hf]]. unfold fill_item in Hf.
    destruct (mapM (fill_version linked) (versions (body it))) as [vs|] eqn:Hvs;
      [|discriminate].
    injection Hf as <-. unfold fill_item. cbn [body versions with_body].
    rewrite (mapM_id (fill_version linked) vs); [reflexivity|].
    intros v' Hv'. destruct (mapM_in _ _ _ _ Hvs Hv') as [v [_ Hfv]].
    unfold fill_version in Hfv.
    destruct (fill_styles _ _ (styles v)) as [m|] eqn:Hfs; [|discriminate].
    injection Hfv as <-. unfold fill_version. cbn [styles def_style].
    apply fill_styles_mem in Hfs. destruct Hfs as [Hall _].
    now rewrite (fill_styles_full _ _ m Hall). }
  rewrite Hfill. cbn [bind]. rewrite Hw at 1. rewrite (write_back_again _ _ Hkey), <- Hw.
  unfold setup_style_tree in H. destruct (link_bases _ _ _) as [[x|e]|];
    try discriminate.
  destruct (mapM _ (d_Item d)) as [its|]; [|discriminate]. injection H as <-.
  reflexivity.
Qed.

Lemma setup_style_tree_idempotent_witness :
  exists d',
    setup_style_tree 3 Sample.tree = Some (Ok d')
    /\ setup_style_tree 3 d' = Some (Ok d').
Proof.
  pose (d' := match setup_style_tree 3 Sample.tree with
              | Some (Ok x) => x
              | _ => Sample.tree
              end).
  assert (H : setup_style_tree 3 Sample.tree = Some (Ok d'))
    by (vm_compute; reflexivity).
  exists d'. split; [exact H|].
  exact (setup_style_tree_idempotent 3 Sample.tree d' H).
Defined.

(** ** An override that comes first *)

(** X23. The collector depends on the order of the definitions: an override
    of an id that has no original yet is stored as the original, and the
    plain definition of that id that comes after it is reported as defined
    twice and dropped. *)
Theorem override_first_becomes_original
        (zip : Zip) (pak_id : string) (dispName : Value) (c : comp_type)
        (over orig : Property) (id : string) (rest : list (comp_type * Property))
        (n : nat) (g : Globals) :
  getitem over "id" = Ok (VStr id) ->
  getitem orig "id" = Ok (VStr id) ->
  value_is (getitem_def over "overrideOrig" (VStr "0")) "1" = true ->
  value_is (getitem_def orig "overrideOrig" (VStr "0")) "1" = false ->
  PyDict.mem id (obj g c) = false ->
  let g1 := set_obj c id (mkRawDef zip over pak_id dispName) g in
  let g2 := print ("ERROR! " ++ dquote ++ id ++ dquote ++ " defined twice!")%string g1 in
  collect zip pak_id dispName ((c, over) :: (c, orig) :: rest) n g
  = collect zip pak_id dispName rest (S (S n)) g2
  /\ PyDict.get id (obj g2 c) = Some (mkRawDef zip over pak_id dispName)
  /\ obj_override g2 = obj_override g.
Proof.
  intros Hover Horig Hsub Hplain Hm g1 g2.
  assert (Hget : PyDict.get id (obj g1 c) = Some (mkRawDef zip over pak_id dispName)).
  { subst g1. cbn [obj set_obj]. rewrite upd_same. apply get_set_same. }
  repeat split; [|exact Hget].
  cbn [collect]. unfold collect_one at 1. rewrite Hover. cbn [bind as_str].
  rewrite Hm. fold g1. unfold collect_one. rewrite Horig. cbn [bind as_str].
  rewrite Hplain. unfold PyDict.mem. now rewrite Hget.
Qed.

(** The first override of the sample style, then the style itself. *)
Lemma override_first_becomes_original_witness :
  let g1 := set_obj CStyle "A" (mkRawDef Sample.over_zip Sample.over_1 "base"
                                         (VStr "base")) (reset initial) in
  let g2 := print ("ERROR! " ++ dquote ++ "A" ++ dquote ++ " defined twice!")%string
                  g1 in
  collect Sample.over_zip "base" (VStr "base")
          [(CStyle, Sample.over_1); (CStyle, Sample.style_A)] 0 (reset initial)
  = collect Sample.over_zip "base" (VStr "base") [] 2 g2
  /\ PyDict.get "A" (obj g2 CStyle)
     = Some (mkRawDef Sample.over_zip Sample.over_1 "base" (VStr "base"))
  /\ obj_override g2 = obj_override (reset initial).
Proof.
  exact (override_first_becomes_original Sample.over_zip "base" (VStr "base") CStyle
           Sample.over_1 Sample.style_A "A" [] 0 (reset initial)
           eq_refl eq_refl eq_refl eq_refl eq_refl).
Defined.

(** ** Archives that are no packages *)

(** X24. An archive without [info.txt] is passed over: two lines go to the
    log, [packages] stays as it was, and the entries after it are read as
    if it had not been there. *)
Theorem archive_without_manifest_is_skipped
        (contents rest : list DirEntry) (g g1 : Globals) (e : DirEntry) (zip : Zip) :
  read_packages contents g = (g1, Ok tt) ->
  ends_with ".zip" (de_path e) && negb (de_is_dir e) = true ->
  de_zip e = Some zip ->
  in_names "info.txt" zip = false ->
  let g2 := print ("ERROR: Bad package'" ++ de_path e ++ "'!")%string
                  (print ("Reading package file '" ++ de_name e ++ "'")%string g1) in
  read_packages (contents ++ e :: rest) g = read_packages rest g2
  /\ packages g2 = packages g1.
Proof.
  intros Hread Hzip Hz Hin g2. split; [|reflexivity].
  rewrite (read_packages_app _ (e :: rest) _ _ Hread). cbn [read_packages].
  now rewrite Hzip, Hz, Hin.
Qed.

(** An archive without entries, then the sample package. *)
Lemma archive_without_manifest_is_skipped_witness :
  let g2 := print "ERROR: Bad package'bare.zip'!"
                  (print "Reading package file 'bare.zip'" initial) in
  read_packages ([] ++ Sample.entry Sample.bare_zip :: [Sample.entry Sample.over_zip])
                initial
  = read_packages [Sample.entry Sample.over_zip] g2
  /\ packages g2 = packages initial.
Proof.
  exact (archive_without_manifest_is_skipped [] [Sample.entry Sample.over_zip]
           initial initial (Sample.entry Sample.bare_zip) Sample.bare_zip
           eq_refl eq_refl eq_refl eq_refl).
Defined.

(** X25. An archive whose [info.txt] has no [ID] is not passed over: the
    lookup raises, the entries after it are not read, no package is scanned
    and [loadAll] ends with the exception. *)
Theorem manifest_without_id_aborts_load
        (fuel : nat) (contents rest : list DirEntry) (g g1 : Globals)
        (e : DirEntry) (zip : Zip) (info : list Property) :
  read_packages contents g = (g1, Ok tt) ->
  ends_with ".zip" (de_path e) && negb (de_is_dir e) = true ->
  de_zip e = Some zip ->
  in_names "info.txt" zip = true ->
  open_parse zip "info.txt" = Ok info ->
  find_first "ID" info = None ->
  loadAll fuel (contents ++ e :: rest) g
  = (print ("Reading package file '" ++ de_name e ++ "'")%string g1,
     Some (Raise NoKeyError)).
Proof.
  intros Hread Hzip Hz Hin Hinfo Hid. unfold loadAll.
  rewrite (read_packages_app _ (e :: rest) _ _ Hread). cbn [read_packages].
  rewrite Hzip, Hz, Hin, Hinfo. cbn [bind]. unfold find_key. now rewrite Hid.
Qed.

(** The archive without [ID], before the sample package. *)
Lemma manifest_without_id_aborts_load_witness :
  loadAll 1 ([] ++ Sample.entry Sample.anon_zip :: [Sample.entry Sample.over_zip])
          initial
  = (print "Reading package file 'anon.zip'" initial, Some (Raise NoKeyError)).
Proof.
  exact (manifest_without_id_aborts_load 1 [] [Sample.entry Sample.over_zip]
           initial initial (Sample.entry Sample.anon_zip) Sample.anon_zip
           [PLeaf "Name" "Anonymous"] eq_refl eq_refl eq_refl eq_refl eq_refl eq_refl).
Defined.

(** * The resolver, from its input to its output *)

Lemma fill_styles_total (def : StyleVal) (todo : list (string * Obj Style))
      (m : PyDict.t StyleVal) :
  Forall (fun e => bases (body (snd e)) <> None) todo ->
  exists m', fill_styles def todo m = Ok m'.
Proof.
  intros H. revert m. induction H as [|[k s] rest Hb _ IH]; intros m;
    cbn [fill_styles]; [eauto|].
  assert (Hs : exists m1, fill_style def m (k, s) = Ok m1).
  { unfold fill_style. destruct (PyDict.mem k m); [eauto|].
    cbn [snd] in Hb. destruct (bases (body s)) as [c|]; [|contradiction].
    destruct (first_present c m); eauto. }
  destruct Hs as [m1 ->]. cbn [bind]. apply IH.
Qed.

Lemma mapM_total {A B} (f : A -> result B) (l : list A) :
  (forall a, exists b, f a = Ok b) -> exists l', mapM f l = Ok l'.
Proof.
  intros H. induction l as [|a r [r' IH]]; cbn [mapM]; [eauto|].
  destruct (H a) as [b ->]. cbn [bind]. rewrite IH. cbn [bind]. eauto.
Qed.

Lemma fill_items_total (linked : PyDict.t (Obj Style)) (its : list (Obj Item)) :
  Forall (fun e => bases (body (snd e)) <> None) linked ->
  exists its', mapM (fill_item linked) its = Ok its'.
Proof.
  intros H. apply mapM_total. intros it. unfold fill_item.
  destruct (mapM_total (fill_version linked) (versions (body it))) as [vs ->];
    [|cbn [bind]; eauto].
  intros v. unfold fill_version.
  destruct (fill_styles_total (def_style v) (PyDict.items linked) (styles v) H)
    as [m ->].
  cbn [bind]. eauto.
Qed.

Lemma base_loop_raises_type_error (fuel : nat) (idx : PyDict.t (Obj Style))
      (b : option (Obj Style)) (base : list string) (e : exn) :
  base_loop fuel idx b base = Some (Raise e) -> e = TypeError.
Proof.
  revert b base. induction fuel as [|f IH]; intros [b|] base H; cbn in H;
    try discriminate.
  unfold get_base in H. destruct (base_style (body b)) as [|a|x].
  - now apply IH in H.
  - now apply IH in H.
  - now injection H as <-.
Qed.

Lemma link_bases_raises_type_error (fuel : nat) (idx : PyDict.t (Obj Style))
      (todo : list (string * Obj Style)) (e : exn) :
  link_bases fuel idx todo = Some (Raise e) -> e = TypeError.
Proof.
  induction todo as [|[k s] rest IH]; cbn [link_bases]; [discriminate|].
  destruct (base_loop fuel idx (Some s) []) as [[c|e0]|] eqn:E; try discriminate.
  - destruct (link_bases fuel idx rest) as [[r'|e1]|]; try discriminate.
    intros [= <-]. now apply IH.
  - intros [= <-]. now apply base_loop_raises_type_error in E.
Qed.

Lemma link_bases_no_raise (fuel : nat) (idx : PyDict.t (Obj Style))
      (todo : list (string * Obj Style)) (e : exn) :
  (forall k s x, PyDict.get k idx = Some s -> base_style (body s) <> VList x) ->
  (forall e0, In e0 todo -> PyDict.get (fst e0) idx = Some (snd e0)) ->
  link_bases fuel idx todo <> Some (Raise e).
Proof.
  intros Hh. induction todo as [|[k s] rest IH]; intros Hin; cbn [link_bases];
    [discriminate|].
  pose proof (Hin (k, s) (or_introl eq_refl)) as Hs. cbn in Hs.
  destruct (base_loop fuel idx (Some s) []) as [[c|e0]|] eqn:E; try discriminate.
  - assert (Hrest : link_bases fuel idx rest <> Some (Raise e))
      by (apply IH; intros e0 He0; apply Hin; now right).
    destruct (link_bases fuel idx rest) as [[r'|e1]|]; try discriminate.
    congruence.
  - exfalso. apply (base_loop_no_raise idx Hh fuel s [] e0); [|exact E].
    intros x. now apply (Hh k).
Qed.

(** C1. After [setup_style_tree] has run on [data], every item of [data] is
    still there with every one of its versions, and the [styles] mapping of
    every such version has an entry for the id of every style of
    [data['Style']], that is for every id of the style index. *)
Theorem setup_style_tree_maps_every_style (fuel : nat) (d d' : Data) :
  setup_style_tree fuel d = Some (Ok d') ->
  length (d_Item d') = length (d_Item d)
  /\ (forall i it,
        nth_error (d_Item d) i = Some it ->
        exists it',
          nth_error (d_Item d') i = Some it'
          /\ i_id (body it') = i_id (body it)
          /\ length (versions (body it')) = length (versions (body it))
          /\ forall j v,
              nth_error (versions (body it)) j = Some v ->
              exists v',
                nth_error (versions (body it')) j = Some v'
                /\ (forall s, In s (d_Style d) ->
                              PyDict.mem (style_id s) (styles v') = true)
                /\ (forall k, PyDict.mem k (index_styles (d_Style d)) = true ->
                              PyDict.mem k (styles v') = true))
  /\ (forall it' v' s,
        In it' (d_Item d') -> In v' (versions (body it')) -> In s (d_Style d) ->
        PyDict.mem (style_id s) (styles v') = true).
Proof.
  intros H. destruct (setup_style_tree_ok _ _ _ H) as [linked [Hl [Hm _]]].
  assert (Hfilled : forall v v', fill_version linked v = Ok v' ->
                                 forall k, PyDict.mem k (index_styles (d_Style d)) = true ->
                                           PyDict.mem k (styles v') = true).
  { intros v v' Hfv k Hk. unfold fill_version in Hfv.
    destruct (fill_styles _ _ _) as [m|] eqn:Hfs; [|discriminate].
    injection Hfv as <-. cbn [styles].
    apply fill_styles_mem in Hfs. destruct Hfs as [Hall _].
    apply mem_keys in Hk. rewrite <- (link_bases_keys _ _ _ _ Hl) in Hk.
    unfold PyDict.keys in Hk. apply in_map_iff in Hk.
    destruct Hk as [e [He Hin]]. rewrite <- He. now apply Hall. }
  split; [now apply mapM_length in Hm|]. split.
  - intros i it Hi. destruct (mapM_nth _ _ _ _ _ Hm Hi) as [it' [Hi' Hf]].
    exists it'. split; [exact Hi'|]. unfold fill_item in Hf.
    destruct (mapM (fill_version linked) (versions (body it))) as [vs|] eqn:Hvs;
      [|discriminate].
    injection Hf as <-. cbn [body with_body i_id versions].
    split; [reflexivity|]. split; [now apply mapM_length in Hvs|].
    intros j v Hj. destruct (mapM_nth _ _ _ _ _ Hvs Hj) as [v' [Hj' Hfv]].
    exists v'. split; [exact Hj'|]. split.
    + intros s Hs. apply (Hfilled v v' Hfv). now apply index_styles_mem.
    + now apply (Hfilled v v' Hfv).
  - intros it' v' s Hit Hv Hs.
    destruct (mapM_in _ _ _ _ Hm Hit) as [it0 [_ Hf]]. unfold fill_item in Hf.
    destruct (mapM (fill_version linked) (versions (body it0))) as [vs|] eqn:Hvs;
      [|discriminate].
    injection Hf as <-. cbn [body with_body versions] in Hv.
    destruct (mapM_in _ _ _ _ Hvs Hv) as [v0 [_ Hfv]].
    apply (Hfilled v0 v' Hfv). now apply index_styles_mem.
Qed.

(** The sample tree: three styles, one item whose version has data for [A]. *)
Lemma setup_style_tree_maps_every_style_witness :
  exists d' it' v',
    setup_style_tree 3 Sample.tree = Some (Ok d')
    /\ length (d_Item d') = 1
    /\ nth_error (d_Item d') 0 = Some it'
    /\ i_id (body it') = "widget"
    /\ nth_error (versions (body it')) 0 = Some v'
    /\ forall s, In s (d_Style Sample.tree) ->
                 PyDict.mem (style_id s) (styles v') = true.
Proof.
  pose (d' := match setup_style_tree 3 Sample.tree with
              | Some (Ok x) => x
              | _ => Sample.tree
              end).
  assert (H : setup_style_tree 3 Sample.tree = Some (Ok d'))
    by (vm_compute; reflexivity).
  destruct (setup_style_tree_maps_every_style 3 Sample.tree d' H)
    as [Hlen [Hall _]].
  destruct (Hall 0 Sample.widget eq_refl) as [it' [Hi [Hid [_ Hvs]]]].
  destruct (Hvs 0 Sample.widget_version eq_refl) as [v' [Hj [Hs _]]].
  exists d', it', v'. repeat split; assumption.
Defined.



(** * Text, for ASCII input *)

Lemma is_ascii_split (d : ascii) (s : string) :
  is_ascii s = true -> Forall (fun t => is_ascii t = true) (split d s).
Proof.
  induction s as [|c r IH]; cbn [is_ascii split]; [repeat constructor|].
  intros H. apply andb_true_iff in H. destruct H as [Hc Hr]. specialize (IH Hr).
  destruct (Ascii.eqb c d).
  - constructor; [reflexivity | exact IH].
  - destruct (split d r) as [|h t].
    + constructor; [|constructor]. cbn [is_ascii]. now rewrite Hc.
    + inversion IH as [|? ? Hh Ht]; subst.
      constructor; [|exact Ht]. cbn [is_ascii]. now rewrite Hc, Hh.
Qed.

Lemma is_ascii_lstrip (s : string) :
  is_ascii s = true -> is_ascii (lstrip s) = true.
Proof.
  induction s as [|c r IH]; cbn [is_ascii lstrip]; [reflexivity|]. intros H.
  destruct (is_space c); [|exact H].
  apply andb_true_iff in H. now apply IH.
Qed.

Lemma is_ascii_rstrip (s : string) :
  is_ascii s = true -> is_ascii (rstrip s) = true.
Proof.
  induction s as [|c r IH]; cbn [is_ascii rstrip]; [reflexivity|]. intros H.
  apply andb_true_iff in H. destruct H as [Hc Hr]. specialize (IH Hr).
  destruct (rstrip r) as [|c' r'].
  - destruct (is_space c); cbn [is_ascii]; [reflexivity | now rewrite Hc].
  - cbn [is_ascii] in *. now rewrite Hc.
Qed.

Lemma rstrip_head (c : ascii) (r : string) :
  is_space c = false -> exists r', rstrip (String c r) = String c r'.
Proof.
  intros Hc. cbn [rstrip]. destruct (rstrip r); [rewrite Hc|]; eauto.
Qed.

Lemma strip_first (s : string) (c : ascii) (r : string) :
  strip s = String c r -> is_space c = false.
Proof.
  unfold strip. destruct (lstrip_head s) as [->|[c0 [r0 [-> Hc0]]]];
    [discriminate|].
  destruct (rstrip_head c0 r0 Hc0) as [r' ->]. now intros [= <- _].
Qed.

Lemma rstrip_last (s : string) (r : string) (c : ascii) :
  rstrip s = (r ++ String c EmptyString)%string -> is_space c = false.
Proof.
  revert r. induction s as [|a s IH]; intros r H; cbn [rstrip] in H.
  - destruct r; discriminate.
  - destruct (rstrip s) as [|b s'] eqn:E.
    + destruct (is_space a) eqn:Ea; [destruct r; discriminate|].
      destruct r as [|a0 r]; cbn in H.
      * now injection H as <-.
      * injection H as _ H. destruct r; discriminate.
    + destruct r as [|a0 r]; cbn in H; [discriminate|].
      injection H as _ H. now apply (IH r).
Qed.

Lemma strip_last (s : string) (r : string) (c : ascii) :
  strip s = (r ++ String c EmptyString)%string -> is_space c = false.
Proof. unfold strip. apply rstrip_last. Qed.

(** X1. Of an ASCII text, every value [sep_values] returns is ASCII, is
    non-empty, neither begins nor ends with a white-space character and
    does not contain the delimiter; what is not a string has no [split] and
    raises. *)
Theorem sep_values_clean (v : Value) (delimiter : ascii) :
  (forall s, v = VStr s -> is_ascii s = true) ->
  match sep_values v delimiter with
  | Ok vals =>
      exists s, v = VStr s /\
      Forall (fun t =>
                is_ascii t = true /\ t <> EmptyString
                /\ (forall c r, t = String c r -> is_space c = false)
                /\ (forall r c, t = (r ++ String c EmptyString)%string ->
                                is_space c = false)
                /\ has_char delimiter t = false) vals
  | Raise e => e = AttributeError /\ forall s, v <> VStr s
  end.
Proof.
  intros Hascii.
  destruct v as [|s|l]; cbn [sep_values]; try (split; [reflexivity | discriminate]).
  exists s. split; [reflexivity|].
  apply Forall_forall. intros t Ht. apply filter_In in Ht.
  destruct Ht as [Hin Hne]. apply in_map_iff in Hin.
  destruct Hin as [u [<- Hu]].
  split; [|split; [|split; [|split]]].
  - unfold strip. apply is_ascii_rstrip, is_ascii_lstrip.
    pose proof (is_ascii_split delimiter s (Hascii s eq_refl)) as H.
    rewrite Forall_forall in H. now apply H.
  - intros E. rewrite E in Hne. discriminate.
  - intros c r. apply strip_first.
  - intros r c. apply strip_last.
  - unfold strip. apply rstrip_no_char, lstrip_no_char.
    pose proof (split_no_delimiter delimiter s) as H.
    rewrite Forall_forall in H. now apply H.
Qed.

(** Three authors between commas and blanks. *)
Lemma sep_values_clean_witness :
  sep_values (VStr " Ann, Bob ,,Cy  ") ","%char = Ok ["Ann"; "Bob"; "Cy"]
  /\ match sep_values (VStr " Ann, Bob ,,Cy  ") ","%char with
     | Ok vals =>
         exists s, VStr " Ann, Bob ,,Cy  " = VStr s /\
         Forall (fun t =>
                   is_ascii t = true /\ t <> EmptyString
                   /\ (forall c r, t = String c r -> is_space c = false)
                   /\ (forall r c, t = (r ++ String c EmptyString)%string ->
                                   is_space c = false)
                   /\ has_char ","%char t = false) vals
     | Raise e => e = AttributeError /\ forall s, VStr " Ann, Bob ,,Cy  " <> VStr s
     end.
Proof.
  split; [reflexivity|].
  apply (sep_values_clean (VStr " Ann, Bob ,,Cy  ") ","%char).
  intros s H. injection H as <-. reflexivity.
Defined.

Lemma lower_no_capital (c : ascii) :
  negb (Nat.leb 65 (nat_of_ascii (lower c)) && Nat.leb (nat_of_ascii (lower c)) 90)
  = true.
Proof.
  destruct c as [[] [] [] [] [] [] [] []]; vm_compute; reflexivity.
Qed.

Lemma lower_ascii (c : ascii) :
  Nat.ltb (nat_of_ascii c) 128 = true ->
  Nat.ltb (nat_of_ascii (lower c)) 128 = true.
Proof.
  destruct c as [[] [] [] [] [] [] [] []]; vm_compute; auto.
Qed.

Lemma casefold_no_capital (s : string) : no_capital (casefold s) = true.
Proof.
  induction s as [|c r IH]; cbn [casefold no_capital]; [reflexivity|].
  now rewrite lower_no_capital, IH.
Qed.

Lemma casefold_ascii (s : string) :
  is_ascii s = true -> is_ascii (casefold s) = true.
Proof.
  induction s as [|c r IH]; cbn [casefold is_ascii]; [reflexivity|]. intros H.
  apply andb_true_iff in H. destruct H as [Hc Hr].
  now rewrite (lower_ascii c Hc), (IH Hr).
Qed.

(** X2. Of a definition whose description lines have ASCII names, every
    label [desc_parse] yields is ASCII without a capital letter; a
    description with children yields one pair per child, in order, of the
    child's name in lower case and its value, and a description without
    children yields the one pair labelled [line] that carries its text. *)
Theorem desc_parse_labels (info : Property) :
  (forall prop line,
      In prop (find_all (children_of (prop_value info)) "description") ->
      In line (children_of (prop_value prop)) ->
      is_ascii (prop_name line) = true) ->
  Forall (fun line => is_ascii (fst line) = true /\ no_capital (fst line) = true)
         (desc_parse info)
  /\ (forall name lines,
         find_all (children_of (prop_value info)) "description"
         = [PBlock name lines] ->
         desc_parse info
         = map (fun l => (casefold (prop_name l), prop_value l)) lines)
  /\ (forall name text,
         find_all (children_of (prop_value info)) "description"
         = [PLeaf name text] ->
         desc_parse info = [("line", VStr text)]).
Proof.
  intros Hascii. split; [|split].
  - unfold desc_parse. apply Forall_forall. intros line Hin.
    apply in_flat_map in Hin. destruct Hin as [prop [Hprop Hin]].
    destruct (has_children prop).
    + apply in_map_iff in Hin. destruct Hin as [x [<- Hx]]. cbn [fst]. split.
      * apply casefold_ascii. now apply (Hascii prop x).
      * apply casefold_no_capital.
    + destruct Hin as [<-|[]]. split; reflexivity.
  - intros name lines H. unfold desc_parse. rewrite H. cbn. apply app_nil_r.
  - intros name text H. unfold desc_parse. rewrite H. reflexivity.
Qed.

(** The sample style with the lines [Line] and [BULLET]. *)
Lemma desc_parse_labels_witness :
  Forall (fun line => is_ascii (fst line) = true /\ no_capital (fst line) = true)
         (desc_parse Sample.described)
  /\ desc_parse Sample.described
     = [("line", VStr "first"); ("bullet", VStr "second")].
Proof.
  assert (H : forall prop line,
             In prop (find_all (children_of (prop_value Sample.described))
                               "description") ->
             In line (children_of (prop_value prop)) ->
             is_ascii (prop_name line) = true).
  { intros prop line [<-|[]] [<-|[<-|[]]]; reflexivity. }
  destruct (desc_parse_labels Sample.described H) as [Hall [Hblock _]].
  split; [exact Hall|].
  exact (Hblock "description" _ eq_refl).
Defined.
